(** * The mobile app store (app-store.tsx): session keys, chat runs,
      history de-duplication, capability toggles and credential persistence.

    Shallow embedding of [src/apps/react-native/src/app/app-store.tsx].

    Conventions of the embedding.
    - A JavaScript string is a [string]; each character stands for one
      UTF-16 code unit below 256.  [trim] removes the code units that
      [String.prototype.trim] removes in that range (TAB, LF, VT, FF, CR,
      SPACE, NBSP).
    - [string | null] and optional string fields are [option string]; a value
      is truthy when it is [Some s] with [s] non-empty.
    - Values of type [unknown] (history records, event messages) are
      [JsValue]s.
    - Timestamps are integer milliseconds ([Z]), the range on which a
      JavaScript number is exact.
    - React's [setState (prev => next)] is a function [AppState -> AppState];
      asynchronous actions are written in explicit state-passing style over a
      [World] that also records the calls made to the collaborators.
    - Where the order of calls and updates matters (the session fields), the
      store is a [Runtime]: the React state, the mirror [stateRef.current],
      which a call reads as it is at that moment, and the queue of updates
      React has not run yet. *)

From stdpp Require Import gmap strings list pretty.
From Stdlib Require Import ZArith Ascii String Bool Lia.
From stdpp Require Import sorting.

Local Open Scope string_scope.
Local Open Scope Z_scope.
Local Open Scope list_scope.

(* ===================================================================== *)
(** ** JavaScript strings and loosely typed values                        *)
(* ===================================================================== *)

(** White space removed by [trim], on code units below 256. *)
Definition is_ws (c : ascii) : bool :=
  let n := N_of_ascii c in
  ((9 <=? n) && (n <=? 13))%N || (n =? 32)%N || (n =? 160)%N.

Fixpoint trimStart (s : string) : string :=
  match s with
  | EmptyString => EmptyString
  | String c r => if is_ws c then trimStart r else s
  end.

Fixpoint trimEnd (s : string) : string :=
  match s with
  | EmptyString => EmptyString
  | String c r =>
      match trimEnd r with
      | EmptyString => if is_ws c then EmptyString else String c EmptyString
      | r' => String c r'
      end
  end.

(** [s.trim()] *)
Definition trim (s : string) : string := trimEnd (trimStart s).

(** A string with no leading white space. *)
Definition clean_start (s : string) : Prop :=
  match s with
  | EmptyString => True
  | String c _ => is_ws c = false
  end.

(** [!s] for a string: only the empty string is falsy. *)
Definition str_falsy (s : string) : bool := String.eqb s "".

(** [a || b] on strings. *)
Definition str_or (a b : string) : string := if str_falsy a then b else a.

(** Truthiness of a [string | null | undefined]. *)
Definition opt_truthy (o : option string) : bool :=
  match o with
  | Some s => negb (str_falsy s)
  | None => false
  end.

Definition lower_char (c : ascii) : ascii :=
  let n := N_of_ascii c in
  if ((65 <=? n) && (n <=? 90))%N
     || (((192 <=? n) && (n <=? 222))%N && negb (n =? 215)%N)
  then ascii_of_N (n + 32) else c.

(** [s.toLowerCase()] *)
Fixpoint toLowerCase (s : string) : string :=
  match s with
  | EmptyString => EmptyString
  | String c r => String (lower_char c) (toLowerCase r)
  end.

(** [s.startsWith(p)] *)
Definition startsWith (s p : string) : bool := String.prefix p s.

Definition newline : string := String (ascii_of_nat 10) EmptyString.

(** [chunks.join(sep)] *)
Fixpoint join (sep : string) (chunks : list string) : string :=
  match chunks with
  | [] => ""
  | [c] => c
  | c :: rest => c +:+ sep +:+ join sep rest
  end.

(** [xs.includes(x)] on an array of strings. *)
Definition includes (xs : list string) (x : string) : bool :=
  existsb (String.eqb x) xs.

(** A value of TypeScript type [unknown]. *)
#[local] Unset Elimination Schemes.
Inductive JsValue : Type :=
| JUndefined
| JNull
| JBool (b : bool)
| JNum (n : Z)
| JStr (s : string)
| JArr (items : list JsValue)
| JObj (props : list (string * JsValue)).
#[local] Set Elimination Schemes.

Fixpoint assoc (k : string) (props : list (string * JsValue)) : JsValue :=
  match props with
  | [] => JUndefined
  | (k', v) :: rest => if String.eqb k k' then v else assoc k rest
  end.

(** [item[k]] for the property names the store reads ([content], [text],
    [errorMessage], [role], [timestamp]); arrays and primitives have none of
    them. *)
Definition getProp (item : JsValue) (k : string) : JsValue :=
  match item with
  | JObj props => assoc k props
  | _ => JUndefined
  end.

(** [v && typeof v === 'object'] *)
Definition isObjectLike (v : JsValue) : bool :=
  match v with
  | JArr _ | JObj _ => true
  | _ => false
  end.

(* ===================================================================== *)
(** ** Data model                                                         *)
(* ===================================================================== *)

Inductive ChatRole : Type := RoleUser | RoleAssistant | RoleSystem.

Definition ChatRole_eqb (a b : ChatRole) : bool :=
  match a, b with
  | RoleUser, RoleUser | RoleAssistant, RoleAssistant | RoleSystem, RoleSystem => true
  | _, _ => false
  end.

(** The string a role is at run time. *)
Definition role_str (r : ChatRole) : string :=
  match r with
  | RoleUser => "user"
  | RoleAssistant => "assistant"
  | RoleSystem => "system"
  end.

Record SessionDefaults : Type := mkSessionDefaults {
  defaultAgentId : string;
  mainKey : string;
  mainSessionKey : string;
  scope : option string;
}.

Record ChatMessage : Type := mkChatMessage {
  id : string;
  role : ChatRole;
  text : string;
  timestamp : Z;
}.

Record GatewayConfigState : Type := mkGatewayConfigState {
  host : string;
  port : string;
  tls : bool;
  token : string;
  password : string;
  setupCode : string;
}.

(** [ConnectionPhase] is declared in [../gateway/sessions]; at run time it is
    a string. *)
Record AppState : Type := mkAppState {
  phase : string;
  statusText : string;
  chatError : option string;
  gatewayConfig : GatewayConfigState;
  sessionDefaults : option SessionDefaults;
  sessionKey : string;
  sessionOptions : list string;
  modelOptions : list string;
  selectedModel : option string;
  chatMessages : list ChatMessage;
  chatStream : string;
  chatLoading : bool;
  chatSending : bool;
  chatRunId : option string;
  talkEnabled : bool;
  voiceWakeEnabled : bool;
  cameraEnabled : bool;
  locationEnabled : bool;
  reconnectOnLaunch : bool;
  rawEvents : list string;
}.

(** [GatewayChatEventPayload] is declared in [../gateway/protocol]; these are
    the fields the store reads. *)
Record GatewayChatEventPayload : Type := mkChatEvent {
  ev_sessionKey : string;
  ev_runId : option string;
  ev_state : string;
  ev_message : JsValue;
  ev_errorMessage : option string;
}.

Record CapabilityConfig : Type := mkCapabilityConfig {
  cap_cameraEnabled : bool;
  cap_locationEnabled : bool;
  cap_voiceWakeEnabled : bool;
  cap_talkEnabled : bool;
}.

(** Object spreads [{ ...s, field: v }], one per field the modelled code
    overrides. *)
Definition with_statusText (v : string) (s : AppState) : AppState :=
  mkAppState (phase s) v (chatError s) (gatewayConfig s) (sessionDefaults s)
    (sessionKey s) (sessionOptions s) (modelOptions s) (selectedModel s)
    (chatMessages s) (chatStream s) (chatLoading s) (chatSending s)
    (chatRunId s) (talkEnabled s) (voiceWakeEnabled s) (cameraEnabled s)
    (locationEnabled s) (reconnectOnLaunch s) (rawEvents s).

Definition with_chatError (v : option string) (s : AppState) : AppState :=
  mkAppState (phase s) (statusText s) v (gatewayConfig s) (sessionDefaults s)
    (sessionKey s) (sessionOptions s) (modelOptions s) (selectedModel s)
    (chatMessages s) (chatStream s) (chatLoading s) (chatSending s)
    (chatRunId s) (talkEnabled s) (voiceWakeEnabled s) (cameraEnabled s)
    (locationEnabled s) (reconnectOnLaunch s) (rawEvents s).

Definition with_sessionDefaults (v : option SessionDefaults) (s : AppState) : AppState :=
  mkAppState (phase s) (statusText s) (chatError s) (gatewayConfig s) v
    (sessionKey s) (sessionOptions s) (modelOptions s) (selectedModel s)
    (chatMessages s) (chatStream s) (chatLoading s) (chatSending s)
    (chatRunId s) (talkEnabled s) (voiceWakeEnabled s) (cameraEnabled s)
    (locationEnabled s) (reconnectOnLaunch s) (rawEvents s).

Definition with_sessionKey (v : string) (s : AppState) : AppState :=
  mkAppState (phase s) (statusText s) (chatError s) (gatewayConfig s)
    (sessionDefaults s) v (sessionOptions s) (modelOptions s) (selectedModel s)
    (chatMessages s) (chatStream s) (chatLoading s) (chatSending s)
    (chatRunId s) (talkEnabled s) (voiceWakeEnabled s) (cameraEnabled s)
    (locationEnabled s) (reconnectOnLaunch s) (rawEvents s).

Definition with_sessionOptions (v : list string) (s : AppState) : AppState :=
  mkAppState (phase s) (statusText s) (chatError s) (gatewayConfig s)
    (sessionDefaults s) (sessionKey s) v (modelOptions s) (selectedModel s)
    (chatMessages s) (chatStream s) (chatLoading s) (chatSending s)
    (chatRunId s) (talkEnabled s) (voiceWakeEnabled s) (cameraEnabled s)
    (locationEnabled s) (reconnectOnLaunch s) (rawEvents s).

Definition with_selectedModel (v : option string) (s : AppState) : AppState :=
  mkAppState (phase s) (statusText s) (chatError s) (gatewayConfig s)
    (sessionDefaults s) (sessionKey s) (sessionOptions s) (modelOptions s) v
    (chatMessages s) (chatStream s) (chatLoading s) (chatSending s)
    (chatRunId s) (talkEnabled s) (voiceWakeEnabled s) (cameraEnabled s)
    (locationEnabled s) (reconnectOnLaunch s) (rawEvents s).

Definition with_chatStream (v : string) (s : AppState) : AppState :=
  mkAppState (phase s) (statusText s) (chatError s) (gatewayConfig s)
    (sessionDefaults s) (sessionKey s) (sessionOptions s) (modelOptions s)
    (selectedModel s) (chatMessages s) v (chatLoading s) (chatSending s)
    (chatRunId s) (talkEnabled s) (voiceWakeEnabled s) (cameraEnabled s)
    (locationEnabled s) (reconnectOnLaunch s) (rawEvents s).

Definition with_chatSending (v : bool) (s : AppState) : AppState :=
  mkAppState (phase s) (statusText s) (chatError s) (gatewayConfig s)
    (sessionDefaults s) (sessionKey s) (sessionOptions s) (modelOptions s)
    (selectedModel s) (chatMessages s) (chatStream s) (chatLoading s) v
    (chatRunId s) (talkEnabled s) (voiceWakeEnabled s) (cameraEnabled s)
    (locationEnabled s) (reconnectOnLaunch s) (rawEvents s).

Definition with_chatRunId (v : option string) (s : AppState) : AppState :=
  mkAppState (phase s) (statusText s) (chatError s) (gatewayConfig s)
    (sessionDefaults s) (sessionKey s) (sessionOptions s) (modelOptions s)
    (selectedModel s) (chatMessages s) (chatStream s) (chatLoading s)
    (chatSending s) v (talkEnabled s) (voiceWakeEnabled s) (cameraEnabled s)
    (locationEnabled s) (reconnectOnLaunch s) (rawEvents s).

Definition with_talkEnabled (v : bool) (s : AppState) : AppState :=
  mkAppState (phase s) (statusText s) (chatError s) (gatewayConfig s)
    (sessionDefaults s) (sessionKey s) (sessionOptions s) (modelOptions s)
    (selectedModel s) (chatMessages s) (chatStream s) (chatLoading s)
    (chatSending s) (chatRunId s) v (voiceWakeEnabled s) (cameraEnabled s)
    (locationEnabled s) (reconnectOnLaunch s) (rawEvents s).

(** [initialState]; [now] is the value of [Date.now()] when the module is
    loaded. *)
Definition initialState (now : Z) : AppState :=
  {| phase := "offline";
     statusText := "Offline";
     chatError := None;
     gatewayConfig :=
       {| host := "127.0.0.1"; port := "18789"; tls := false;
          token := ""; password := ""; setupCode := "" |};
     sessionDefaults := None;
     sessionKey := "main";
     sessionOptions := ["main"];
     modelOptions := [];
     selectedModel := None;
     chatMessages :=
       [ {| id := "welcome"; role := RoleSystem;
            text := "Connect to a gateway to start chat.";
            timestamp := now |} ];
     chatStream := "";
     chatLoading := false;
     chatSending := false;
     chatRunId := None;
     talkEnabled := false;
     voiceWakeEnabled := false;
     cameraEnabled := true;
     locationEnabled := false;
     reconnectOnLaunch := true;
     rawEvents := [] |}.

(* ===================================================================== *)
(** ** Session keys                                                       *)
(* ===================================================================== *)

(** [typeof v === 'string' ? v.trim() : ''] *)
Definition trimmed_string_or_empty (v : JsValue) : string :=
  match v with
  | JStr s => trim s
  | _ => ""
  end.

(** [parseSessionDefaults]; the argument is [hello.snapshot?.sessionDefaults]. *)
Definition parseSessionDefaults (defaults : JsValue) : option SessionDefaults :=
  if negb (isObjectLike defaults) then None
  else
    let defaultAgentId := trimmed_string_or_empty (getProp defaults "defaultAgentId") in
    let mainKey := trimmed_string_or_empty (getProp defaults "mainKey") in
    let mainSessionKey := trimmed_string_or_empty (getProp defaults "mainSessionKey") in
    if str_falsy defaultAgentId || str_falsy mainKey || str_falsy mainSessionKey
    then None
    else
      let scope := trimmed_string_or_empty (getProp defaults "scope") in
      Some {| defaultAgentId := defaultAgentId;
              mainKey := mainKey;
              mainSessionKey := mainSessionKey;
              scope := if str_falsy scope then None else Some scope |}.

Definition normalizeSessionKeyForDefaults
    (value : string) (defaults : option SessionDefaults) : string :=
  let raw := trim value in
  if str_falsy raw then raw
  else
    match defaults with
    | None => raw
    | Some d =>
        if str_falsy (mainSessionKey d) then raw
        else
          let isAlias :=
            String.eqb raw "main"
            || String.eqb raw (mainKey d)
            || String.eqb raw ("agent:" +:+ defaultAgentId d +:+ ":main")
            || String.eqb raw ("agent:" +:+ defaultAgentId d +:+ ":" +:+ mainKey d) in
          if isAlias then mainSessionKey d else raw
    end.

Definition sessionKeysMatch
    (left right : string) (defaults : option SessionDefaults) : bool :=
  let normalizedLeft := normalizeSessionKeyForDefaults left defaults in
  let normalizedRight := normalizeSessionKeyForDefaults right defaults in
  if String.eqb normalizedLeft normalizedRight then true
  else
    match defaults with
    | None =>
        (String.eqb normalizedLeft "main" && String.eqb normalizedRight "agent:main:main")
        || (String.eqb normalizedLeft "agent:main:main" && String.eqb normalizedRight "main")
    | Some _ => false
    end.

(** The loop of [normalizeSessionOptions]: [normalized] is kept in source
    order, [seen] is the [Set] of what was pushed. *)
Fixpoint normalizeSessionOptions_loop
    (options : list string) (defaults : option SessionDefaults)
    (seen : gset string) (normalized : list string) : list string :=
  match options with
  | [] => normalized
  | option :: rest =>
      let candidate := normalizeSessionKeyForDefaults option defaults in
      if str_falsy candidate || bool_decide (candidate ∈ seen)
      then normalizeSessionOptions_loop rest defaults seen normalized
      else normalizeSessionOptions_loop rest defaults
             ({[candidate]} ∪ seen) (normalized ++ [candidate])
  end.

Definition normalizeSessionOptions
    (options : list string) (defaults : option SessionDefaults) : list string :=
  normalizeSessionOptions_loop options defaults ∅ [].

Definition resolveSessionKeyForRequest (state : AppState) : string :=
  str_or (normalizeSessionKeyForDefaults (sessionKey state) (sessionDefaults state))
         (sessionKey state).

(* ===================================================================== *)
(** ** History reconciliation                                             *)
(* ===================================================================== *)

(** The callback mapped over [content] in [extractTextFromMessageObject]:
    the chunk's text, or [null]. *)
Definition chunkText (entry : JsValue) : option string :=
  if negb (isObjectLike entry) then None
  else
    match getProp entry "text" with
    | JStr t => Some t
    | _ => None
    end.

(** [content.map(...).filter(entry => typeof entry === 'string' && entry.length > 0)] *)
Fixpoint textChunks (content : list JsValue) : list string :=
  match content with
  | [] => []
  | entry :: rest =>
      match chunkText entry with
      | Some t => if str_falsy t then textChunks rest else t :: textChunks rest
      | None => textChunks rest
      end
  end.

Definition extractTextFromMessageObject (item : JsValue) : string :=
  let afterContent :=
    match getProp item "text" with
    | JStr t => t
    | _ =>
        match getProp item "errorMessage" with
        | JStr e =>
            let error := trim e in
            if str_falsy error then ""
            else if startsWith (toLowerCase error) "error:" then error
                 else "Error: " +:+ error
        | _ => ""
        end
    end in
  match getProp item "content" with
  | JStr content => content
  | JArr content =>
      let chunks := textChunks content in
      match chunks with
      | [] => afterContent
      | _ :: _ => join newline chunks
      end
  | _ => afterContent
  end.

(** The key [`${message.role}|${message.timestamp}|${text}`]. *)
Definition messageKey (message : ChatMessage) : string :=
  role_str (role message) +:+ "|" +:+ pretty (timestamp message) +:+ "|"
    +:+ trim (text message).

Definition nearDuplicateWindowMs : Z := 30000.

(** The test of the inner [if] of [dedupeChatMessages]. *)
Definition nearDuplicate (message previous : ChatMessage) : bool :=
  let txt := trim (text message) in
  let previousText := trim (text previous) in
  let closeInTime :=
    Z.abs (timestamp message - timestamp previous) <=? nearDuplicateWindowMs in
  ChatRole_eqb (role message) (role previous)
  && negb (ChatRole_eqb (role message) RoleUser)
  && (0 <? String.length txt)%nat
  && String.eqb txt previousText
  && closeInTime.

(** One iteration of the [for] loop of [dedupeChatMessages] over the pair
    ([seen], [deduped]). *)
Definition dedupe_step
    (st : gset string * list ChatMessage) (message : ChatMessage)
    : gset string * list ChatMessage :=
  let key := messageKey message in
  if bool_decide (key ∈ st.1) then st
  else
    match last st.2 with
    | Some previous =>
        if nearDuplicate message previous then st
        else ({[key]} ∪ st.1, st.2 ++ [message])
    | None => ({[key]} ∪ st.1, st.2 ++ [message])
    end.

Definition dedupe_loop
    (messages : list ChatMessage) (st : gset string * list ChatMessage)
    : gset string * list ChatMessage :=
  fold_left dedupe_step messages st.

Definition dedupeChatMessages (messages : list ChatMessage) : list ChatMessage :=
  (dedupe_loop messages (∅, [])).2.

(** Loop invariant: [seen] holds exactly the keys of the kept messages. *)
Definition seen_is_kept (st : gset string * list ChatMessage) : Prop :=
  forall k, k ∈ st.1 <-> exists m, In m st.2 /\ messageKey m = k.

(** [formatModelRef] *)
Definition formatModelRef (provider model : JsValue) : option string :=
  let normalizedProvider := trimmed_string_or_empty provider in
  let normalizedModel := trimmed_string_or_empty model in
  if str_falsy normalizedProvider || str_falsy normalizedModel then None
  else Some (normalizedProvider +:+ "/" +:+ normalizedModel).

(* ===================================================================== *)
(** ** The chat run state machine                                         *)
(* ===================================================================== *)

(** [Boolean(payload.runId && state.chatRunId && payload.runId !== state.chatRunId)] *)
Definition isForeignRun (state : AppState) (payload : GatewayChatEventPayload) : bool :=
  opt_truthy (ev_runId payload)
  && opt_truthy (chatRunId state)
  && negb (bool_decide (ev_runId payload = chatRunId state)).

(** The terminal update shared by [final] and [aborted]:
    [{ ...state, chatStream: '', chatRunId: null, chatSending: false, chatError: null }] *)
Definition clearRun (state : AppState) : AppState :=
  with_chatError None
    (with_chatSending false (with_chatRunId None (with_chatStream "" state))).

Definition applyChatEvent (state : AppState) (payload : GatewayChatEventPayload)
    : AppState :=
  if negb (sessionKeysMatch (ev_sessionKey payload) (sessionKey state)
             (sessionDefaults state))
  then state
  else if String.eqb (ev_state payload) "delta" then
    if isForeignRun state payload then state
    else
      let txt :=
        if isObjectLike (ev_message payload)
        then str_or (extractTextFromMessageObject (ev_message payload))
                    (chatStream state)
        else chatStream state in
      with_chatError None (with_chatStream txt state)
  else if String.eqb (ev_state payload) "final" then
    if isForeignRun state payload then with_chatError None state
    else clearRun state
  else if String.eqb (ev_state payload) "aborted" then
    if isForeignRun state payload then state
    else clearRun state
  else if String.eqb (ev_state payload) "error" then
    if isForeignRun state payload then state
    else
      let errorMessage := default "Chat error" (ev_errorMessage payload) in
      with_chatError (Some errorMessage)
        (with_statusText errorMessage
           (with_chatSending false (with_chatRunId None (with_chatStream "" state))))
  else state.

(** [shouldReloadHistoryForChatTerminal] *)
Definition shouldReloadHistoryForChatTerminal
    (payload : GatewayChatEventPayload) (state : AppState) : bool :=
  if negb (String.eqb (ev_state payload) "final")
     && negb (String.eqb (ev_state payload) "aborted")
  then false
  else sessionKeysMatch (ev_sessionKey payload) (sessionKey state)
         (sessionDefaults state).

(* ===================================================================== *)
(** ** Credential persistence                                             *)
(* ===================================================================== *)

Definition gatewayConfigStorageKey : string := "openclaw.mobile.gateway.config.v1".
Definition gatewaySecretsStorageKey : string := "openclaw.mobile.gateway.secrets.v1".

(** The calls the persistence effect makes; a written value is the object
    handed to [JSON.stringify]. *)
Inductive StoreCall : Type :=
| AsyncStorage_setItem (key : string) (value : JsValue)
| SecureStore_deleteItemAsync (key : string)
| SecureStore_setItemAsync (key : string) (value : JsValue).

(** [{ ...state.gatewayConfig, token: '', password: '', setupCode: '' }] *)
Definition plainPayload (cfg : GatewayConfigState) : JsValue :=
  JObj [ ("host", JStr (host cfg)); ("port", JStr (port cfg));
         ("tls", JBool (tls cfg)); ("token", JStr "");
         ("password", JStr ""); ("setupCode", JStr "") ].

(** [{ token: state.gatewayConfig.token, password: state.gatewayConfig.password }] *)
Definition secretsPayload (cfg : GatewayConfigState) : JsValue :=
  JObj [ ("token", JStr (token cfg)); ("password", JStr (password cfg)) ].

(** The second [useEffect] of [AppStoreProvider]: one persistence pass, as the
    list of store calls in program order.  [hydrated] is
    [gatewayConfigHydratedRef.current]. *)
Definition persistGatewayConfig (hydrated : bool) (state : AppState) : list StoreCall :=
  if negb hydrated then []
  else
    let cfg := gatewayConfig state in
    AsyncStorage_setItem gatewayConfigStorageKey (plainPayload cfg)
    :: (if str_falsy (token cfg) && str_falsy (password cfg)
        then [SecureStore_deleteItemAsync gatewaySecretsStorageKey]
        else [SecureStore_setItemAsync gatewaySecretsStorageKey (secretsPayload cfg)]).

(* ===================================================================== *)
(** ** Capability toggles                                                 *)
(* ===================================================================== *)

Definition buildCapabilityConfig (state : AppState) : CapabilityConfig :=
  {| cap_cameraEnabled := cameraEnabled state;
     cap_locationEnabled := locationEnabled state;
     cap_voiceWakeEnabled := voiceWakeEnabled state;
     cap_talkEnabled := talkEnabled state |}.

(** What a rejected promise can carry, as [normalizeGatewayMessage] tells the
    cases apart.  [requestId] is [error.details?.requestId]. *)
Inductive Thrown : Type :=
| GatewayRequestError (code message : string) (requestId : JsValue)
| JsError (message : string)
| OtherThrown (asString : string).

Definition normalizeGatewayMessage (error : Thrown) : string :=
  match error with
  | GatewayRequestError code message requestId =>
      let rid :=
        match requestId with
        | JStr r => trim r
        | _ => ""
        end in
      let suffix := if str_falsy rid then "" else " (requestId: " +:+ rid +:+ ")" in
      code +:+ ": " +:+ message +:+ suffix
  | JsError message => message
  | OtherThrown asString => asString
  end.

(** Calls to the transport collaborator and to its operator client. *)
Inductive GatewayCall : Type :=
| client_request_talk_mode (enabled : bool) (timeoutMs : Z)
| manager_reconnectWithCapabilities (config : CapabilityConfig).

(** The store as an action sees it: the committed React state, the mirror
    [stateRef.current], and the collaborator calls made so far (oldest
    first). *)
Record World : Type := mkWorld {
  w_state : AppState;
  w_stateRef : AppState;
  w_calls : list GatewayCall;
}.

Definition setState (f : AppState -> AppState) (w : World) : World :=
  mkWorld (f (w_state w)) (w_stateRef w) (w_calls w).

(** [useEffect(() => { stateRef.current = state }, [state])]: runs when React
    commits, which it does while an action is suspended in an [await]. *)
Definition commit (w : World) : World :=
  mkWorld (w_state w) (w_state w) (w_calls w).

Definition call (c : GatewayCall) (w : World) : World :=
  mkWorld (w_state w) (w_stateRef w) (w_calls w ++ [c]).

(** How the collaborators answer during one [setTalkEnabled]:
    [managerRef.current] and [manager.getOperatorClient()] are present or not,
    and each promise resolves ([None]) or rejects ([Some error]). *)
Record TalkEnv : Type := mkTalkEnv {
  hasManager : bool;
  hasClient : bool;
  talkModeResult : option Thrown;
  reconnectResult : option Thrown;
}.

(** How an [async] action settles for its caller. *)
Inductive Settled : Type :=
| Resolved
| Rejected (error : Thrown).

(** [actions.setTalkEnabled(enabled)] *)
Definition setTalkEnabled (env : TalkEnv) (enabled : bool) (w : World)
    : World * Settled :=
  let w1 := setState (with_talkEnabled enabled) w in
  if negb (hasManager env) || negb (hasClient env) then (w1, Resolved)
  else
    (* try *)
    let w2 := commit (call (client_request_talk_mode enabled 8000) w1) in
    match talkModeResult env with
    | Some error =>
        (* catch *)
        (setState (with_statusText (normalizeGatewayMessage error)) w2, Resolved)
    | None =>
        let w3 :=
          commit
            (call (manager_reconnectWithCapabilities
                     (buildCapabilityConfig
                        (with_talkEnabled enabled (w_stateRef w2)))) w2) in
        match reconnectResult env with
        | Some error =>
            (* catch *)
            (setState (with_statusText (normalizeGatewayMessage error)) w3, Resolved)
        | None => (w3, Resolved)
        end
    end.

(** The [manager.reconnectWithCapabilities] calls of a trace. *)
Definition reconnectCalls (calls : list GatewayCall) : list CapabilityConfig :=
  omap (fun c => match c with
                 | manager_reconnectWithCapabilities config => Some config
                 | _ => None
                 end) calls.

(* ===================================================================== *)
(** ** Session selection                                                  *)
(* ===================================================================== *)

(** The state update of the [onHello] callback once defaults were parsed. *)
Definition installSessionDefaults (defaults : SessionDefaults) (prev : AppState)
    : AppState :=
  let nextSessionKey :=
    str_or (normalizeSessionKeyForDefaults (sessionKey prev) (Some defaults))
           (sessionKey prev) in
  let normalizedOptions := normalizeSessionOptions (sessionOptions prev) (Some defaults) in
  let nextOptions :=
    if includes normalizedOptions nextSessionKey then normalizedOptions
    else nextSessionKey :: normalizedOptions in
  with_sessionOptions
    (if (0 <? List.length nextOptions)%nat then nextOptions else [nextSessionKey])
    (with_sessionKey nextSessionKey (with_sessionDefaults (Some defaults) prev)).

(** [onHello(hello, role)]; [helloDefaults] is
    [hello.snapshot?.sessionDefaults]. *)
Definition onHello (helloDefaults : JsValue) (role : string) (prev : AppState)
    : AppState :=
  if negb (String.eqb role "operator") then prev
  else
    match parseSessionDefaults helloDefaults with
    | None => prev
    | Some defaults => installSessionDefaults defaults prev
    end.

(** [nextKey] of [setSessionKey]; [current] is [stateRef.current]. *)
Definition nextKeyFor (requested : string) (current : AppState) : string :=
  str_or (normalizeSessionKeyForDefaults (str_or (trim requested) "main")
            (sessionDefaults current))
         "main".

(** The state update of [actions.setSessionKey(sessionKey)]. *)
Definition setSessionKey (requested : string) (current prev : AppState) : AppState :=
  with_sessionKey (nextKeyFor requested current) prev.

(** A row of [response.sessions]. *)
Record SessionRow : Type := mkSessionRow {
  row_key : JsValue;
  row_modelProvider : JsValue;
  row_model : JsValue;
}.

(** [typeof session.key === 'string' ? session.key : ''] *)
Definition rowKey (session : SessionRow) : string :=
  match row_key session with
  | JStr k => k
  | _ => ""
  end.

(** The state update of [refreshSessions] for a response carrying
    [sessions]; [refDefaults] is [stateRef.current.sessionDefaults] when the
    response arrives. *)
Definition applySessionsList
    (refDefaults : option SessionDefaults) (sessions : list SessionRow)
    (prev : AppState) : AppState :=
  let options := List.filter (fun key => negb (str_falsy key)) (map rowKey sessions) in
  let normalized := normalizeSessionOptions options refDefaults in
  let currentKey :=
    str_or (normalizeSessionKeyForDefaults (sessionKey prev) (sessionDefaults prev))
           (sessionKey prev) in
  let candidate :=
    if (0 <? List.length normalized)%nat then normalized else sessionOptions prev in
  let currentRow :=
    List.find (fun session =>
                 negb (str_falsy (rowKey session))
                 && sessionKeysMatch (rowKey session) currentKey (sessionDefaults prev))
              sessions in
  let currentModel :=
    match currentRow with
    | Some r => formatModelRef (row_modelProvider r) (row_model r)
    | None => None
    end in
  with_selectedModel
    (match currentModel with
     | Some m => Some m
     | None => selectedModel prev
     end)
    (with_sessionOptions
       (if includes candidate currentKey then candidate else currentKey :: candidate)
       (with_sessionKey currentKey prev)).

(** [sessionOptions] lists the canonical form of the current [sessionKey]. *)
Definition lists_current_key (s : AppState) : Prop :=
  In (normalizeSessionKeyForDefaults (sessionKey s) (sessionDefaults s))
     (sessionOptions s).

(** Defaults as [parseSessionDefaults] builds them: [mainSessionKey] is
    already trimmed. *)
Definition trimmed_defaults (defaults : option SessionDefaults) : Prop :=
  match defaults with
  | None => True
  | Some d => trim (mainSessionKey d) = mainSessionKey d
  end.

(* ===================================================================== *)
(** ** Sample states and events                                           *)
(* ===================================================================== *)

(** A store in the middle of run ["run-1"] of session ["main"], with part of
    the answer streamed and an earlier failure still displayed. *)
Definition streamingState : AppState :=
  with_chatError (Some "previous failure")
    (with_chatRunId (Some "run-1")
       (with_chatSending true (with_chatStream "Hel" (initialState 0)))).

(** A [final] event of another run of the same session. *)
Definition foreignFinal : GatewayChatEventPayload :=
  mkChatEvent "main" (Some "run-0") "final" JUndefined None.

(** A [delta] event of another run of the same session. *)
Definition foreignDelta : GatewayChatEventPayload :=
  mkChatEvent "main" (Some "run-0") "delta"
    (JObj [("content", JStr "stale text")]) None.

(** A [final] event of the current run, sent to another session. *)
Definition otherSessionFinal : GatewayChatEventPayload :=
  mkChatEvent "agent:ops:work" (Some "run-1") "final" JUndefined None.

(** An event of the current run whose state the store does not know. *)
Definition unknownStateEvent : GatewayChatEventPayload :=
  mkChatEvent "main" (Some "run-1") "started" JUndefined None.

(** An assistant message of the history, stamped [stamp]; the same answer
    retransmitted carries another stamp. *)
Definition helloAt (stamp : Z) : ChatMessage :=
  mkChatMessage "history-0" RoleAssistant "Hello " stamp.

(** A different record in between. *)
Definition questionAt (stamp : Z) : ChatMessage :=
  mkChatMessage "history-1" RoleUser "And then?" stamp.

(** A store whose configuration holds a token and no password. *)
Definition tokenState : AppState :=
  mkAppState "offline" "Offline" None
    (mkGatewayConfigState "gw.example" "443" true "s3cret" "" "CODE")
    None "main" ["main"] [] None [] "" false false None
    false false true false true [].

(** The store at start-up, in sync with its mirror, no call made yet. *)
Definition freshWorld : World :=
  mkWorld (initialState 0) (initialState 0) [].

(** A connected gateway whose [talk.mode] request times out. *)
Definition talkModeTimesOut : TalkEnv :=
  mkTalkEnv true true (Some (JsError "talk.mode timed out")) None.

(** A connected gateway that accepts both calls. *)
Definition talkModeAccepted : TalkEnv :=
  mkTalkEnv true true None None.

(** The session defaults of a handshake, as the gateway sends them. *)
Definition helloDefaultsSample : JsValue :=
  JObj [ ("defaultAgentId", JStr "ops"); ("mainKey", JStr "primary");
         ("mainSessionKey", JStr " agent:ops:primary ");
         ("scope", JStr "per-sender") ].

(** A [sessions.list] response that does not report the main session. *)
Definition sessionRowsSample : list SessionRow :=
  [ mkSessionRow (JStr "agent:ops:work") (JStr "anthropic") (JStr "sonnet");
    mkSessionRow (JNum 7) JUndefined JUndefined;
    mkSessionRow (JStr " agent:ops:notes") JUndefined JUndefined ].

(** The store after the handshake. *)
Definition helloState : AppState :=
  onHello helloDefaultsSample "operator" (initialState 0).

(* ===================================================================== *)
(** ** The rest of the store                                              *)
(* ===================================================================== *)

Definition with_gatewayConfig (v : GatewayConfigState) (s : AppState) : AppState :=
  mkAppState (phase s) (statusText s) (chatError s) v
    (sessionDefaults s) (sessionKey s) (sessionOptions s) (modelOptions s)
    (selectedModel s) (chatMessages s) (chatStream s) (chatLoading s)
    (chatSending s) (chatRunId s) (talkEnabled s) (voiceWakeEnabled s)
    (cameraEnabled s) (locationEnabled s) (reconnectOnLaunch s) (rawEvents s).

Definition with_chatMessages (v : list ChatMessage) (s : AppState) : AppState :=
  mkAppState (phase s) (statusText s) (chatError s) (gatewayConfig s)
    (sessionDefaults s) (sessionKey s) (sessionOptions s) (modelOptions s)
    (selectedModel s) v (chatStream s) (chatLoading s)
    (chatSending s) (chatRunId s) (talkEnabled s) (voiceWakeEnabled s)
    (cameraEnabled s) (locationEnabled s) (reconnectOnLaunch s) (rawEvents s).

Definition with_chatLoading (v : bool) (s : AppState) : AppState :=
  mkAppState (phase s) (statusText s) (chatError s) (gatewayConfig s)
    (sessionDefaults s) (sessionKey s) (sessionOptions s) (modelOptions s)
    (selectedModel s) (chatMessages s) (chatStream s) v
    (chatSending s) (chatRunId s) (talkEnabled s) (voiceWakeEnabled s)
    (cameraEnabled s) (locationEnabled s) (reconnectOnLaunch s) (rawEvents s).

Definition with_voiceWakeEnabled (v : bool) (s : AppState) : AppState :=
  mkAppState (phase s) (statusText s) (chatError s) (gatewayConfig s)
    (sessionDefaults s) (sessionKey s) (sessionOptions s) (modelOptions s)
    (selectedModel s) (chatMessages s) (chatStream s) (chatLoading s)
    (chatSending s) (chatRunId s) (talkEnabled s) v
    (cameraEnabled s) (locationEnabled s) (reconnectOnLaunch s) (rawEvents s).

Definition with_cameraEnabled (v : bool) (s : AppState) : AppState :=
  mkAppState (phase s) (statusText s) (chatError s) (gatewayConfig s)
    (sessionDefaults s) (sessionKey s) (sessionOptions s) (modelOptions s)
    (selectedModel s) (chatMessages s) (chatStream s) (chatLoading s)
    (chatSending s) (chatRunId s) (talkEnabled s) (voiceWakeEnabled s)
    v (locationEnabled s) (reconnectOnLaunch s) (rawEvents s).

Definition with_locationEnabled (v : bool) (s : AppState) : AppState :=
  mkAppState (phase s) (statusText s) (chatError s) (gatewayConfig s)
    (sessionDefaults s) (sessionKey s) (sessionOptions s) (modelOptions s)
    (selectedModel s) (chatMessages s) (chatStream s) (chatLoading s)
    (chatSending s) (chatRunId s) (talkEnabled s) (voiceWakeEnabled s)
    (cameraEnabled s) v (reconnectOnLaunch s) (rawEvents s).

Definition with_rawEvents (v : list string) (s : AppState) : AppState :=
  mkAppState (phase s) (statusText s) (chatError s) (gatewayConfig s)
    (sessionDefaults s) (sessionKey s) (sessionOptions s) (modelOptions s)
    (selectedModel s) (chatMessages s) (chatStream s) (chatLoading s)
    (chatSending s) (chatRunId s) (talkEnabled s) (voiceWakeEnabled s)
    (cameraEnabled s) (locationEnabled s) (reconnectOnLaunch s) v.

(** *** Identifiers and history records *)

(** What [Date.now()] and [Math.floor(Math.random() * 10_000)] return for
    one call of [nowId]. *)
Record Stamp : Type := mkStamp {
  stamp_now : Z;
  stamp_random : Z;
}.

(** [nowId(prefix)] *)
Definition nowId (prefix : string) (stamp : Stamp) : string :=
  prefix +:+ "-" +:+ pretty (stamp_now stamp) +:+ "-" +:+ pretty (stamp_random stamp).

(** [resolveChatRole(rawRole, fallback)] *)
Definition resolveChatRole (rawRole : JsValue) (fallback : ChatRole) : ChatRole :=
  let normalized :=
    match rawRole with
    | JStr s => toLowerCase (trim s)
    | _ => ""
    end in
  if String.eqb normalized "user" then RoleUser
  else if String.eqb normalized "assistant" then RoleAssistant
  else if String.eqb normalized "system" then RoleSystem
  else fallback.

(** [mapHistoryMessage(raw, index)]; [now] is the [Date.now()] of the
    timestamp fallback and [stamp] feeds [nowId]. *)
Definition mapHistoryMessage
    (now : Z) (stamp : Stamp) (raw : JsValue) (index : nat) : option ChatMessage :=
  if negb (isObjectLike raw) then None
  else
    let item := raw in
    let role := resolveChatRole (getProp item "role") RoleAssistant in
    let txt := extractTextFromMessageObject item in
    if str_falsy (trim txt) then None
    else
      let timestamp :=
        match getProp item "timestamp" with
        | JNum n => n
        | _ => now
        end in
      Some {| id := nowId ("history-" +:+ pretty index) stamp;
              role := role;
              text := txt;
              timestamp := timestamp |}.

(** [messages.map((entry, index) => mapHistoryMessage(entry, index))
      .filter(entry => entry !== null)], from position [index] on; [clock]
    gives the time and the stamp the call for each position sees. *)
Fixpoint mapHistory_from
    (clock : nat -> Z * Stamp) (index : nat) (messages : list JsValue)
    : list ChatMessage :=
  match messages with
  | [] => []
  | entry :: rest =>
      match mapHistoryMessage (clock index).1 (clock index).2 entry index with
      | Some m => m :: mapHistory_from clock (S index) rest
      | None => mapHistory_from clock (S index) rest
      end
  end.

Definition mapHistory (clock : nat -> Z * Stamp) (messages : list JsValue)
    : list ChatMessage :=
  mapHistory_from clock 0 messages.

(** How a [chat.history] request settles; [messages] is [response.messages],
    which may be missing. *)
Inductive HistoryResult : Type :=
| HistoryRejected (error : Thrown)
| HistoryResolved (messages : option (list JsValue)).

(** The state update of [loadChatHistory] for a response whose reconciled
    messages are [deduped]. *)
Definition applyHistory
    (showLoading quiet : bool) (deduped : list ChatMessage) (prev : AppState)
    : AppState :=
  with_chatError (if quiet then chatError prev else None)
    (with_chatLoading (if showLoading then false else chatLoading prev)
       (with_chatMessages
          (if (0 <? List.length deduped)%nat then deduped else chatMessages prev)
          (with_sessionKey
             (str_or (normalizeSessionKeyForDefaults (sessionKey prev)
                        (sessionDefaults prev))
                     (sessionKey prev))
             prev))).

(** [loadChatHistory({ showLoading, quiet })], with the state the updates
    are applied to threaded through; [hasClient] tells whether an operator
    client is there. *)
Definition loadChatHistory
    (clock : nat -> Z * Stamp) (hasClient showLoading quiet : bool)
    (result : HistoryResult) (s : AppState) : AppState :=
  if negb hasClient then s
  else
    let s1 :=
      if showLoading then with_chatError None (with_chatLoading true s) else s in
    match result with
    | HistoryResolved messages =>
        let mapped := mapHistory clock (default [] messages) in
        applyHistory showLoading quiet (dedupeChatMessages mapped) s1
    | HistoryRejected error =>
        if quiet then (if showLoading then with_chatLoading false s1 else s1)
        else
          let message := normalizeGatewayMessage error in
          with_chatError (Some message)
            (with_statusText message (with_chatLoading false s1))
    end.

(** The [onChatEvent] callback: whether to reload the history is decided on
    [current], which is [stateRef.current] when the event arrives; the event
    is applied to [prev], the state the updater receives; the quiet reload,
    if any, follows, and [reload] is how its request settles. *)
Definition onChatEvent
    (clock : nat -> Z * Stamp) (hasClient : bool) (reload : HistoryResult)
    (payload : GatewayChatEventPayload) (current prev : AppState) : AppState :=
  let shouldReloadHistory := shouldReloadHistoryForChatTerminal payload current in
  let next := applyChatEvent prev payload in
  if shouldReloadHistory then loadChatHistory clock hasClient false true reload next
  else next.

(** The [onAgentEvent] callback; [payloadText] is [payload.text]. *)
Definition onAgentEvent
    (payloadText : option string) (stamp : Stamp) (now : Z) (prev : AppState)
    : AppState :=
  let note := match payloadText with Some t => trim t | None => "" end in
  if str_falsy note then prev
  else
    with_chatMessages
      (chatMessages prev
       ++ [ {| id := nowId "agent" stamp; role := RoleSystem;
               text := note; timestamp := now |} ])
      prev.

(** The [onRawEvent] callback; [eventName] is [event.event]. *)
Definition onRawEvent (eventName role0 : string) (prev : AppState) : AppState :=
  with_rawEvents (take 20 ((role0 +:+ ":" +:+ eventName) :: rawEvents prev)) prev.

(** *** The message thread of the chat screen *)

(** The [while] loop of [sortByTime]: from [insertAt], step left while the
    message before has a larger timestamp. *)
Fixpoint findInsertAt
    (sorted : list ChatMessage) (message : ChatMessage) (insertAt : nat) : nat :=
  match insertAt with
  | O => O
  | S before =>
      match sorted !! before with
      | Some previous =>
          if timestamp previous >? timestamp message
          then findInsertAt sorted message before
          else insertAt
      | None => insertAt
      end
  end.

(** [sorted.splice(insertAt, 0, message)] *)
Definition splice_in (insertAt : nat) (message : ChatMessage) (sorted : list ChatMessage)
    : list ChatMessage :=
  take insertAt sorted ++ message :: drop insertAt sorted.

(** One iteration of the [for] loop of [sortByTime]. *)
Definition sortByTime_step (sorted : list ChatMessage) (message : ChatMessage)
    : list ChatMessage :=
  splice_in (findInsertAt sorted message (List.length sorted)) message sorted.

Definition sortByTime (messages : list ChatMessage) : list ChatMessage :=
  fold_left sortByTime_step messages [].

(** Timestamps do not decrease along the list. *)
Definition by_time (a b : ChatMessage) : Prop := timestamp a <= timestamp b.

(** The messages of a list that carry timestamp [t], in list order. *)
Definition stamped (t : Z) (messages : list ChatMessage) : list ChatMessage :=
  List.filter (fun m => timestamp m =? t) messages.

(** *** Sending *)


(** [response && typeof response.runId === 'string' ? response.runId.trim() : ''] *)
Definition actualRunIdOf (response : JsValue) : string :=
  trimmed_string_or_empty (getProp response "runId").

(** The first update of [sendChatMessage]: the run starts and the user's
    message is appended. *)
Definition beginSend
    (runId : string) (userStamp : Stamp) (sentAt : Z) (message : string)
    (prev : AppState) : AppState :=
  with_chatMessages
    (chatMessages prev
     ++ [ {| id := nowId "user" userStamp; role := RoleUser;
             text := message; timestamp := sentAt |} ])
    (with_chatError None
       (with_chatStream "" (with_chatRunId (Some runId) (with_chatSending true prev)))).

(** The update after an acknowledgement that names another run:
    [prev.chatRunId !== runId ? prev : { ...prev, chatRunId: actualRunId }]. *)
Definition rebindRunId (runId actualRunId : string) (prev : AppState) : AppState :=
  if bool_decide (chatRunId prev = Some runId)
  then with_chatRunId (Some actualRunId) prev
  else prev.

(** The [try] body after the request resolved. *)
Definition acknowledgeSend (runId : string) (response : JsValue) (prev : AppState)
    : AppState :=
  let actualRunId := actualRunIdOf response in
  if negb (str_falsy actualRunId) && negb (String.eqb actualRunId runId)
  then rebindRunId runId actualRunId prev
  else prev.

(** The [catch] update of [sendChatMessage]. *)
Definition failSend
    (error : Thrown) (errorStamp : Stamp) (failedAt : Z) (prev : AppState)
    : AppState :=
  let message := normalizeGatewayMessage error in
  with_statusText message
    (with_chatMessages
       (chatMessages prev
        ++ [ {| id := nowId "chat-error" errorStamp; role := RoleAssistant;
                text := "Error: " +:+ message; timestamp := failedAt |} ])
       (with_chatError (Some message)
          (with_chatStream "" (with_chatRunId None prev)))).



(** *** The other capability toggles *)

(** The shape shared by [setVoiceWakeEnabled], [setCameraEnabled] and
    [setLocationEnabled]: the flag is written with [override], then, with a
    manager, [reconnectWithCapabilities] is awaited outside any [try];
    [stateRef.current] is read before React commits the update. *)
Definition toggleAndReconnect
    (override : bool -> AppState -> AppState)
    (hasManager0 : bool) (rejected : option Thrown) (enabled : bool) (w : World)
    : World * Settled :=
  let w1 := setState (override enabled) w in
  if negb hasManager0 then (w1, Resolved)
  else
    let w2 :=
      commit
        (call (manager_reconnectWithCapabilities
                 (buildCapabilityConfig (override enabled (w_stateRef w1)))) w1) in
    match rejected with
    | Some error => (w2, Rejected error)
    | None => (w2, Resolved)
    end.

(** [actions.setVoiceWakeEnabled(enabled)] *)
Definition setVoiceWakeEnabled := toggleAndReconnect with_voiceWakeEnabled.

(** [actions.setCameraEnabled(enabled)] *)
Definition setCameraEnabled := toggleAndReconnect with_cameraEnabled.

(** [actions.setLocationEnabled(enabled)] *)
Definition setLocationEnabled := toggleAndReconnect with_locationEnabled.

(** *** Hydration of the gateway configuration *)

(** [Partial<GatewayConfigState>] *)
Record PartialGatewayConfig : Type := mkPartialGatewayConfig {
  p_host : option string;
  p_port : option string;
  p_tls : option bool;
  p_token : option string;
  p_password : option string;
  p_setupCode : option string;
}.

(** [Object.keys(next).length > 0 ? next : null] *)
Definition nonEmptyPartial (next : PartialGatewayConfig) : option PartialGatewayConfig :=
  match next with
  | mkPartialGatewayConfig None None None None None None => None
  | _ => Some next
  end.

(** The result of the built-in [Number(string)], as far as the store looks
    at it: an integer, or anything else ([NaN], a fraction, an infinity). *)
Inductive JsNumber : Type :=
| NumInteger (n : Z)
| NumOther.

(** [typeof v === 'string'] with its value. *)
Definition asString (v : JsValue) : option string :=
  match v with
  | JStr s => Some s
  | _ => None
  end.

Section Hydration.

(** The built-in conversion [Number(s)] on strings. *)
Variable Number : string -> JsNumber.

(** [parseStoredGatewayConfig(raw)]; [stored] is [JSON.parse(raw)], or [None]
    when [raw] is null or empty or is not JSON. *)
Definition parseStoredGatewayConfig (stored : option JsValue)
    : option PartialGatewayConfig :=
  match stored with
  | None => None
  | Some parsed =>
      if negb (isObjectLike parsed) then None
      else
        nonEmptyPartial
          {| p_host :=
               match getProp parsed "host" with
               | JStr h => if (0 <? String.length (trim h))%nat then Some (trim h) else None
               | _ => None
               end;
             p_port :=
               match getProp parsed "port" with
               | JStr p =>
                   match Number p with
                   | NumInteger n =>
                       if (0 <? n) && (n <=? 65535) then Some (pretty n) else None
                   | NumOther => None
                   end
               | _ => None
               end;
             p_tls :=
               match getProp parsed "tls" with
               | JBool b => Some b
               | _ => None
               end;
             p_token := asString (getProp parsed "token");
             p_password := asString (getProp parsed "password");
             p_setupCode := None |}
  end.

(** [parseStoredGatewaySecrets(raw)] *)
Definition parseStoredGatewaySecrets (stored : option JsValue)
    : option PartialGatewayConfig :=
  match stored with
  | None => None
  | Some parsed =>
      if negb (isObjectLike parsed) then None
      else
        nonEmptyPartial
          {| p_host := None; p_port := None; p_tls := None;
             p_token := asString (getProp parsed "token");
             p_password := asString (getProp parsed "password");
             p_setupCode := None |}
  end.

(** [{ ...cfg, ...patch }] *)
Definition spreadConfig (cfg : GatewayConfigState) (patch : option PartialGatewayConfig)
    : GatewayConfigState :=
  match patch with
  | None => cfg
  | Some p =>
      {| host := default (host cfg) (p_host p);
         port := default (port cfg) (p_port p);
         tls := default (tls cfg) (p_tls p);
         token := default (token cfg) (p_token p);
         password := default (password cfg) (p_password p);
         setupCode := default (setupCode cfg) (p_setupCode p) |}
  end.

(** The first [useEffect] of [AppStoreProvider] once both reads resolved:
    [configRaw] and [secretsRaw] as parsed JSON. *)
Definition hydrateGatewayConfig
    (configRaw secretsRaw : option JsValue) (prev : AppState) : AppState :=
  let storedConfig := parseStoredGatewayConfig configRaw in
  let storedSecrets := parseStoredGatewaySecrets secretsRaw in
  match storedConfig, storedSecrets with
  | None, None => prev
  | _, _ =>
      with_gatewayConfig
        (spreadConfig (spreadConfig (gatewayConfig prev) storedConfig) storedSecrets)
        prev
  end.

End Hydration.

(** The two stores, each holding at most the one record the store uses;
    what is read back is the value that was serialised. *)
Record Stores : Type := mkStores {
  plainRecord : option JsValue;
  secureRecord : option JsValue;
}.

(** The effect of a store call that succeeds. *)
Definition runStoreCall (stores : Stores) (c : StoreCall) : Stores :=
  match c with
  | AsyncStorage_setItem _ value => mkStores (Some value) (secureRecord stores)
  | SecureStore_deleteItemAsync _ => mkStores (plainRecord stores) None
  | SecureStore_setItemAsync _ value => mkStores (plainRecord stores) (Some value)
  end.

Definition runStoreCalls (calls : list StoreCall) (stores : Stores) : Stores :=
  fold_left runStoreCall calls stores.

(** *** Predicates on message lists and option lists *)

(** No message of the list is a near duplicate of the one just before it. *)
Definition no_adjacent_near (messages : list ChatMessage) : Prop :=
  forall l1 a b l2, messages = l1 ++ a :: b :: l2 -> nearDuplicate b a = false.

(** The keys of the messages are pairwise different. *)
Definition distinct_keys (messages : list ChatMessage) : Prop :=
  NoDup (map messageKey messages).

(** Loop invariant of [normalizeSessionOptions]: [seen] holds exactly the
    pushed keys. *)
Definition seen_is_pushed (seen : gset string) (normalized : list string) : Prop :=
  forall x, x ∈ seen <-> In x normalized.

(** *** More sample values *)

(** A [chat.history] response: two usable records, a string, and a record
    whose text is blank. *)
Definition historySample : list JsValue :=
  [ JObj [ ("role", JStr "User"); ("content", JStr "Hi");
           ("timestamp", JNum 1000) ];
    JObj [ ("role", JStr "assistant");
           ("content", JArr [ JObj [("type", JStr "text"); ("text", JStr "Hello")] ]);
           ("timestamp", JNum 2000) ];
    JStr "noise";
    JObj [ ("content", JStr "  ") ] ].

(** A clock that shows 5000 ms at every call and draws the position as the
    random number. *)
Definition clockSample (index : nat) : Z * Stamp :=
  (5000, mkStamp 5000 (Z.of_nat index)).




(** A world whose mirror lags behind: the state has the camera switched off,
    [stateRef.current] still shows the initial state. *)
Definition laggingWorld : World :=
  mkWorld (with_cameraEnabled false (initialState 0)) (initialState 0) [].

(** *** The thread under every update *)

(** A record of a history response that yields a message. *)
Definition usableRecord (raw : JsValue) : bool :=
  isObjectLike raw && negb (str_falsy (trim (extractTextFromMessageObject raw))).

(** States the store reaches through its state updates, told apart by what
    they do to [chatMessages]: the updates that write the thread are listed
    one by one, every other update is one that leaves the thread as it
    is. *)
Inductive thread_reachable (now : Z) : AppState -> Prop :=
| thread_initial : thread_reachable now (initialState now)
| thread_applyChatEvent s payload :
    thread_reachable now s -> thread_reachable now (applyChatEvent s payload)
| thread_applyHistory s showLoading quiet clock messages :
    thread_reachable now s ->
    thread_reachable now
      (applyHistory showLoading quiet
         (dedupeChatMessages (mapHistory clock messages)) s)
| thread_onAgentEvent s payloadText stamp time :
    thread_reachable now s ->
    thread_reachable now (onAgentEvent payloadText stamp time s)
| thread_beginSend s runId stamp time txt :
    thread_reachable now s -> trim txt <> "" ->
    thread_reachable now (beginSend runId stamp time (trim txt) s)
| thread_failSend s error stamp time :
    thread_reachable now s -> thread_reachable now (failSend error stamp time s)
| thread_other s (update : AppState -> AppState) :
    thread_reachable now s ->
    chatMessages (update s) = chatMessages s ->
    thread_reachable now (update s).

(** No message of the thread has a blank text. *)
Definition no_blank_message (messages : list ChatMessage) : Prop :=
  Forall (fun m => trim (text m) <> "") messages.

(** [Number] on the one port string of the examples. *)
Definition numberSample (s : string) : JsNumber :=
  if String.eqb s "8443" then NumInteger 8443 else NumOther.

(* ===================================================================== *)
(** ** The store at run time: queued updates and the mirror               *)
(* ===================================================================== *)

(** An update that leaves [sessionDefaults], [sessionKey] and
    [sessionOptions] as they are. *)
Definition keeps_session (f : AppState -> AppState) : Prop :=
  forall s,
    sessionDefaults (f s) = sessionDefaults s
    /\ sessionKey (f s) = sessionKey s
    /\ sessionOptions (f s) = sessionOptions s.

(** A [setState] call that React has queued, with the values its closure
    captured when the call was made. *)
Inductive Update : Type :=
| UpdSetSessionKey (nextKey : string)
    (* setSessionKey: prev => { ...prev, sessionKey: nextKey } *)
| UpdInstallDefaults (defaults : SessionDefaults)
    (* onHello *)
| UpdSessionsList (refDefaults : option SessionDefaults) (sessions : list SessionRow)
    (* refreshSessions *)
| UpdHistory (showLoading quiet : bool) (deduped : list ChatMessage)
    (* loadChatHistory, on a response *)
| UpdReplace (next : AppState)
    (* setGatewayConfig, applySetupCode: setState(next) *)
| UpdOther (update : AppState -> AppState) (mirrored : bool).
    (* every other updater; [mirrored] when it assigns stateRef.current *)

(** The state an update yields from the state React hands it. *)
Definition runUpdate (u : Update) (prev : AppState) : AppState :=
  match u with
  | UpdSetSessionKey nextKey => with_sessionKey nextKey prev
  | UpdInstallDefaults defaults => installSessionDefaults defaults prev
  | UpdSessionsList refDefaults sessions => applySessionsList refDefaults sessions prev
  | UpdHistory showLoading quiet deduped => applyHistory showLoading quiet deduped prev
  | UpdReplace next => next
  | UpdOther update _ => update prev
  end.

(** Whether the updater runs [stateRef.current = next]. *)
Definition writesMirror (u : Update) : bool :=
  match u with
  | UpdSetSessionKey _ | UpdInstallDefaults _ | UpdHistory _ _ _ => true
  | UpdSessionsList _ _ | UpdReplace _ => false
  | UpdOther _ mirrored => mirrored
  end.

(** The React state, the mirror [stateRef.current], and the updates queued
    and not yet run, oldest first. *)
Record Runtime : Type := mkRuntime {
  rt_state : AppState;
  rt_mirror : AppState;
  rt_queue : list Update;
}.

Definition initialRuntime (now : Z) : Runtime :=
  mkRuntime (initialState now) (initialState now) [].

Definition enqueue (u : Update) (w : Runtime) : Runtime :=
  mkRuntime (rt_state w) (rt_mirror w) (rt_queue w ++ [u]).

(** What can happen to the store. *)
Inductive Action : Type :=
| CallSetSessionKey (requested : string)
| CallOnHello (helloDefaults : JsValue) (role : string)
| SessionsResponse (sessions : list SessionRow)
| HistoryResponse (showLoading quiet : bool) (clock : nat -> Z * Stamp)
    (messages : list JsValue)
| CallReplace (patch : AppState -> AppState)
| CallOther (update : AppState -> AppState) (mirrored : bool)
| RunNext
| Commit.

(** One action.  A call reads the mirror as it is at that moment and queues
    its update; [RunNext] is React running the oldest queued update;
    [Commit] is the effect [stateRef.current = state] after a render. *)
Definition perform (a : Action) (w : Runtime) : Runtime :=
  match a with
  | CallSetSessionKey requested =>
      enqueue (UpdSetSessionKey (nextKeyFor requested (rt_mirror w))) w
  | CallOnHello helloDefaults role0 =>
      if negb (String.eqb role0 "operator") then w
      else
        match parseSessionDefaults helloDefaults with
        | None => w
        | Some defaults => enqueue (UpdInstallDefaults defaults) w
        end
  | SessionsResponse sessions =>
      enqueue (UpdSessionsList (sessionDefaults (rt_mirror w)) sessions) w
  | HistoryResponse showLoading quiet clock messages =>
      enqueue (UpdHistory showLoading quiet
                 (dedupeChatMessages (mapHistory clock messages))) w
  | CallReplace patch =>
      let next := patch (rt_mirror w) in
      mkRuntime (rt_state w) next (rt_queue w ++ [UpdReplace next])
  | CallOther update mirrored => enqueue (UpdOther update mirrored) w
  | RunNext =>
      match rt_queue w with
      | [] => w
      | u :: rest =>
          let next := runUpdate u (rt_state w) in
          mkRuntime next (if writesMirror u then next else rt_mirror w) rest
      end
  | Commit => mkRuntime (rt_state w) (rt_state w) (rt_queue w)
  end.

(** The actions of the store: a whole-state write patches other fields than
    the session fields of the mirror, and the updaters gathered under
    [CallOther] leave the session fields alone. *)
Definition allowed (a : Action) : Prop :=
  match a with
  | CallReplace patch => keeps_session patch
  | CallOther update _ => keeps_session update
  | _ => True
  end.

(** Whether [sessionOptions] is still as [onHello] or a sessions response
    last wrote it for the current key: running one of these two updates
    says yes, running a [setSessionKey] update or a whole-state write says
    no, everything else leaves the answer as it was. *)
Definition listedAfter (a : Action) (w : Runtime) (listed : bool) : bool :=
  match a with
  | RunNext =>
      match rt_queue w with
      | UpdInstallDefaults _ :: _ | UpdSessionsList _ _ :: _ => true
      | UpdSetSessionKey _ :: _ | UpdReplace _ :: _ => false
      | _ => listed
      end
  | _ => listed
  end.

(** The run-time states the store reaches, each with the answer of
    [listedAfter]. *)
Inductive runtime_reachable (now : Z) : bool -> Runtime -> Prop :=
| rt_initial : runtime_reachable now true (initialRuntime now)
| rt_perform listed w a :
    runtime_reachable now listed w -> allowed a ->
    runtime_reachable now (listedAfter a w listed) (perform a w).

(** A state whose defaults are trimmed and whose session key is not
    blank. *)
Definition steady (s : AppState) : Prop :=
  trimmed_defaults (sessionDefaults s) /\ trim (sessionKey s) <> "".

(** What a queued update carries, for [steady] to be kept when it runs. *)
Definition steady_update (u : Update) : Prop :=
  match u with
  | UpdSetSessionKey nextKey => trim nextKey <> ""
  | UpdInstallDefaults defaults => trimmed_defaults (Some defaults)
  | UpdReplace next => steady next
  | UpdOther update _ => keeps_session update
  | UpdSessionsList _ _ | UpdHistory _ _ _ => True
  end.

(** Options that are pairwise different, none of them empty. *)
Definition tidy_options (s : AppState) : Prop :=
  NoDup (sessionOptions s) /\ ~ In "" (sessionOptions s).

Definition tidy_update (u : Update) : Prop :=
  match u with
  | UpdReplace next => tidy_options next
  | _ => True
  end.

(** The list without the later repetitions of its elements. *)
Fixpoint keep_first (l : list string) : list string :=
  match l with
  | [] => []
  | x :: rest =>
      x :: List.filter (fun y => negb (String.eqb y x)) (keep_first rest)
  end.

(** The store after the handshake and a sessions response that does not
    report the main session, every update run. *)
Definition listedRuntime : Runtime :=
  perform RunNext
    (perform (SessionsResponse sessionRowsSample)
       (perform RunNext
          (perform (CallOnHello helloDefaultsSample "operator")
             (initialRuntime 0)))).

(** The store after [setSessionKey("work")] at start-up, the update run. *)
Definition unlistedRuntime : Runtime :=
  perform RunNext (perform (CallSetSessionKey "work") (initialRuntime 0)).

(** [setSessionKey("main")] called while the update of [onHello] is still
    queued, then both updates run. *)
Definition laggingRuntime : Runtime :=
  perform RunNext
    (perform RunNext
       (perform (CallSetSessionKey "main")
          (perform (CallOnHello helloDefaultsSample "operator")
             (initialRuntime 0)))).

(** Run-time invariants: the state, the mirror and every queued update are
    steady, respectively tidy. *)
Definition steady_runtime (w : Runtime) : Prop :=
  steady (rt_state w) /\ steady (rt_mirror w) /\ Forall steady_update (rt_queue w).

Definition tidy_runtime (w : Runtime) : Prop :=
  tidy_options (rt_state w) /\ tidy_options (rt_mirror w)
  /\ Forall tidy_update (rt_queue w).

(* ===================================================================== *)
(** * Properties                                                          *)
(* ===================================================================== *)

(** ** Strings *)

Section Trim.

Lemma trimStart_clean s : clean_start (trimStart s).
Proof.
  induction s as [|c r IH]; simpl; [exact I|].
  destruct (is_ws c) eqn:E; [exact IH | exact E].
Qed.

Lemma trimStart_fixed s : clean_start s -> trimStart s = s.
Proof. destruct s as [|c r]; simpl; [reflexivity|]. now intros ->. Qed.

Lemma trimEnd_clean s : clean_start s -> clean_start (trimEnd s).
Proof.
  destruct s as [|c r]; simpl; [trivial|]. intros Hc.
  destruct (trimEnd r); [rewrite Hc|]; exact Hc.
Qed.

Lemma trimEnd_cons c r :
  trimEnd (String c r)
  = match trimEnd r with
    | EmptyString => if is_ws c then EmptyString else String c EmptyString
    | String a b => String c (String a b)
    end.
Proof. reflexivity. Qed.

Lemma trimEnd_idem s : trimEnd (trimEnd s) = trimEnd s.
Proof.
  induction s as [|c r IH]; [reflexivity|].
  rewrite (trimEnd_cons c r).
  destruct (trimEnd r) as [|c' r'] eqn:E.
  - destruct (is_ws c) eqn:W; [reflexivity|].
    rewrite trimEnd_cons. simpl. now rewrite W.
  - rewrite trimEnd_cons. now rewrite IH.
Qed.

Lemma trim_clean s : clean_start (trim s).
Proof. apply trimEnd_clean, trimStart_clean. Qed.

Lemma trim_idem s : trim (trim s) = trim s.
Proof.
  unfold trim at 1. rewrite (trimStart_fixed (trim s)) by apply trim_clean.
  apply trimEnd_idem.
Qed.

End Trim.

Lemma str_falsy_true s : str_falsy s = true <-> s = "".
Proof. apply String.eqb_eq. Qed.

Lemma str_falsy_false s : str_falsy s = false <-> s <> "".
Proof. apply String.eqb_neq. Qed.

Lemma str_or_nonempty a b : a <> "" -> str_or a b = a.
Proof. intros H. unfold str_or. now rewrite (proj2 (str_falsy_false a) H). Qed.

Lemma includes_In xs x : includes xs x = true <-> In x xs.
Proof.
  unfold includes. rewrite existsb_exists. split.
  - intros (y & Hy & E). apply String.eqb_eq in E. now subst.
  - intros H. exists x. split; [exact H | apply String.eqb_refl].
Qed.

(** ** Session keys *)

Section SessionKeys.

Implicit Types (k : string) (d : option SessionDefaults).

Lemma normalize_blank k d :
  trim k = "" -> normalizeSessionKeyForDefaults k d = "".
Proof. intros H. unfold normalizeSessionKeyForDefaults. now rewrite H. Qed.

(** The result is the trimmed input or the main session key. *)
Lemma normalize_cases k d :
  normalizeSessionKeyForDefaults k d = trim k
  \/ (trim k <> "" /\
      exists sd, d = Some sd /\ mainSessionKey sd <> ""
                 /\ normalizeSessionKeyForDefaults k d = mainSessionKey sd).
Proof.
  unfold normalizeSessionKeyForDefaults.
  destruct (str_falsy (trim k)) eqn:E; [now left|].
  destruct d as [sd|]; [|now left].
  destruct (str_falsy (mainSessionKey sd)) eqn:M; [now left|].
  match goal with |- context [if ?b then _ else _] => destruct b end;
    [right | now left].
  split; [now apply str_falsy_false|].
  exists sd. repeat split. now apply str_falsy_false.
Qed.

Lemma normalize_nonempty k d :
  trim k <> "" -> normalizeSessionKeyForDefaults k d <> "".
Proof.
  intros H. destruct (normalize_cases k d) as [-> | (_ & sd & _ & M & ->)];
    assumption.
Qed.

Lemma normalize_trim k d :
  normalizeSessionKeyForDefaults (trim k) d = normalizeSessionKeyForDefaults k d.
Proof. unfold normalizeSessionKeyForDefaults. now rewrite trim_idem. Qed.

(** Normalising twice is normalising once, when the main session key of the
    defaults is itself trimmed. *)
Lemma normalize_idem k d :
  trimmed_defaults d ->
  normalizeSessionKeyForDefaults (normalizeSessionKeyForDefaults k d) d
  = normalizeSessionKeyForDefaults k d.
Proof.
  intros Hd.
  destruct (normalize_cases k d) as [H | (_ & sd & -> & M & H)].
  - rewrite H at 1. rewrite normalize_trim. reflexivity.
  - rewrite H. simpl in Hd. unfold normalizeSessionKeyForDefaults.
    rewrite Hd. apply str_falsy_false in M. rewrite M.
    now destruct (_ || _).
Qed.

Lemma parseSessionDefaults_trimmed v sd :
  parseSessionDefaults v = Some sd -> trimmed_defaults (Some sd).
Proof.
  unfold parseSessionDefaults.
  destruct (negb (isObjectLike v)); [discriminate|].
  destruct (_ || _); [discriminate|].
  intros [= <-]. simpl. unfold trimmed_string_or_empty.
  destruct (getProp v "mainSessionKey"); try reflexivity. apply trim_idem.
Qed.

End SessionKeys.

(** C8. The match relation on session keys is symmetric: for all keys
    [a], [b] and all defaults [d], absent or not,
    [sessionKeysMatch a b d = sessionKeysMatch b a d]. *)
Theorem sessionKeysMatch_sym (a b : string) (d : option SessionDefaults) :
  sessionKeysMatch a b d = sessionKeysMatch b a d.
Proof.
  unfold sessionKeysMatch.
  set (na := normalizeSessionKeyForDefaults a d).
  set (nb := normalizeSessionKeyForDefaults b d).
  rewrite (String.eqb_sym nb na).
  destruct (String.eqb na nb); [reflexivity|].
  destruct d; [reflexivity|].
  rewrite orb_comm. f_equal; apply andb_comm.
Qed.

(** C9, amended. Normalisation is idempotent for every key and for all
    defaults that are absent or whose [mainSessionKey] is trimmed, as
    [parseSessionDefaults] makes it:
    [normalize (normalize k d) d = normalize k d]. *)
Theorem normalizeSessionKeyForDefaults_idempotent
    (k : string) (d : option SessionDefaults) :
  trimmed_defaults d ->
  normalizeSessionKeyForDefaults (normalizeSessionKeyForDefaults k d) d
  = normalizeSessionKeyForDefaults k d.
Proof. exact (normalize_idem k d). Qed.

Lemma normalizeSessionKeyForDefaults_idempotent_witness :
  trimmed_defaults (Some (mkSessionDefaults "ops" "primary" "agent:ops:home" None))
  /\ normalizeSessionKeyForDefaults
       (normalizeSessionKeyForDefaults " main "
          (Some (mkSessionDefaults "ops" "primary" "agent:ops:home" None)))
       (Some (mkSessionDefaults "ops" "primary" "agent:ops:home" None))
     = normalizeSessionKeyForDefaults " main "
         (Some (mkSessionDefaults "ops" "primary" "agent:ops:home" None)).
Proof.
  split; [reflexivity|].
  apply (normalizeSessionKeyForDefaults_idempotent " main "
           (Some (mkSessionDefaults "ops" "primary" "agent:ops:home" None))).
  reflexivity.
Defined.

(** C9 as stated fails: with defaults whose [mainSessionKey] carries
    surrounding blanks, the alias ["main"] normalises to that untrimmed key,
    and normalising again trims it. *)
Lemma normalize_untrimmed_mainSessionKey_not_idempotent :
  normalizeSessionKeyForDefaults
    (normalizeSessionKeyForDefaults "main"
       (Some (mkSessionDefaults "ops" "primary" " agent:ops:home " None)))
    (Some (mkSessionDefaults "ops" "primary" " agent:ops:home " None))
  <> normalizeSessionKeyForDefaults "main"
       (Some (mkSessionDefaults "ops" "primary" " agent:ops:home " None)).
Proof. vm_compute. discriminate. Qed.

(** ** The chat run state machine *)

Section ChatEvents.

Implicit Types (s : AppState) (p : GatewayChatEventPayload).

(** An event is foreign when both run identifiers are non-empty strings
    and they differ. *)
Lemma isForeignRun_true_iff s p :
  isForeignRun s p = true
  <-> exists r c, ev_runId p = Some r /\ chatRunId s = Some c
                  /\ r <> "" /\ c <> "" /\ r <> c.
Proof.
  unfold isForeignRun, opt_truthy.
  destruct (ev_runId p) as [r|], (chatRunId s) as [c|]; simpl;
    try (rewrite ?andb_false_r; simpl;
         split; [discriminate | intros (? & ? & ? & ? & _); discriminate]).
  rewrite !andb_true_iff, !negb_true_iff, !str_falsy_false.
  rewrite bool_decide_eq_false. split.
  - intros [[Hr Hc] Hne]. exists r, c. repeat split; try assumption.
    intros ->. now apply Hne.
  - intros (r' & c' & [= <-] & [= <-] & Hr & Hc & Hne).
    repeat split; try assumption. intros [= E]. now apply Hne.
Qed.

Lemma applyChatEvent_matching s p :
  sessionKeysMatch (ev_sessionKey p) (sessionKey s) (sessionDefaults s) = true ->
  isForeignRun s p = true ->
  applyChatEvent s p
  = if String.eqb (ev_state p) "final" then with_chatError None s else s.
Proof.
  intros Hm Hf. unfold applyChatEvent. rewrite Hm, Hf. simpl.
  destruct (String.eqb (ev_state p) "delta") eqn:D.
  { apply String.eqb_eq in D. now rewrite D. }
  destruct (String.eqb (ev_state p) "final"); [reflexivity|].
  now repeat destruct (String.eqb _ _).
Qed.

End ChatEvents.

(** C1, amended. For an event of the current session that is foreign (both
    run identifiers set, and different), [applyChatEvent] returns the state
    unchanged when the event's state is [delta], [aborted] or [error]; when
    it is [final], it returns the state with [chatError] reset to [null] and
    every other field unchanged. *)
Theorem applyChatEvent_foreign_run (s : AppState) (p : GatewayChatEventPayload) :
  sessionKeysMatch (ev_sessionKey p) (sessionKey s) (sessionDefaults s) = true ->
  isForeignRun s p = true ->
  (ev_state p = "delta" \/ ev_state p = "aborted" \/ ev_state p = "error" ->
   applyChatEvent s p = s)
  /\ (ev_state p = "final" -> applyChatEvent s p = with_chatError None s).
Proof.
  intros Hm Hf. rewrite (applyChatEvent_matching s p Hm Hf). split.
  - intros [-> | [-> | ->]]; reflexivity.
  - intros ->. reflexivity.
Qed.

Lemma applyChatEvent_foreign_run_witness :
  applyChatEvent streamingState foreignDelta = streamingState
  /\ applyChatEvent streamingState foreignFinal = with_chatError None streamingState.
Proof.
  split.
  - apply (applyChatEvent_foreign_run streamingState foreignDelta);
      [reflexivity | reflexivity | left; reflexivity].
  - apply (applyChatEvent_foreign_run streamingState foreignFinal);
      reflexivity.
Defined.

(** C1 as stated fails on [final]: a foreign [final] event of the current
    session clears a displayed [chatError]. *)
Lemma foreign_final_changes_state :
  sessionKeysMatch (ev_sessionKey foreignFinal) (sessionKey streamingState)
    (sessionDefaults streamingState) = true
  /\ isForeignRun streamingState foreignFinal = true
  /\ ev_state foreignFinal = "final"
  /\ chatError streamingState = Some "previous failure"
  /\ chatError (applyChatEvent streamingState foreignFinal) = None
  /\ applyChatEvent streamingState foreignFinal <> streamingState.
Proof.
  repeat split; try reflexivity.
  intros H. apply (f_equal chatError) in H. discriminate H.
Qed.

(** C2. An event whose session key does not match the current one, under the
    state's defaults, leaves the state exactly as it was, whatever its
    state, run, message or error message. *)
Theorem applyChatEvent_other_session (s : AppState) (p : GatewayChatEventPayload) :
  sessionKeysMatch (ev_sessionKey p) (sessionKey s) (sessionDefaults s) = false ->
  applyChatEvent s p = s.
Proof. intros H. unfold applyChatEvent. now rewrite H. Qed.

Lemma applyChatEvent_other_session_witness :
  applyChatEvent streamingState otherSessionFinal = streamingState.
Proof.
  apply (applyChatEvent_other_session streamingState otherSessionFinal).
  reflexivity.
Defined.

(** C4. A foreign event of the current session, whatever its state, leaves
    [chatStream] and [chatRunId] as they were. *)
Theorem applyChatEvent_foreign_keeps_run (s : AppState) (p : GatewayChatEventPayload) :
  sessionKeysMatch (ev_sessionKey p) (sessionKey s) (sessionDefaults s) = true ->
  isForeignRun s p = true ->
  chatStream (applyChatEvent s p) = chatStream s
  /\ chatRunId (applyChatEvent s p) = chatRunId s.
Proof.
  intros Hm Hf. rewrite (applyChatEvent_matching s p Hm Hf).
  destruct (String.eqb _ _); split; reflexivity.
Qed.

Lemma applyChatEvent_foreign_keeps_run_witness :
  chatStream (applyChatEvent streamingState foreignFinal) = chatStream streamingState
  /\ chatRunId (applyChatEvent streamingState foreignFinal) = chatRunId streamingState.
Proof.
  apply (applyChatEvent_foreign_keeps_run streamingState foreignFinal);
    reflexivity.
Defined.

(** C10. [applyChatEvent] writes at most [chatStream], [chatRunId],
    [chatSending], [chatError] and [statusText]: every other field of the
    state is returned as it was; and an event whose state is none of
    [delta], [final], [aborted], [error] leaves the whole state unchanged. *)
Theorem applyChatEvent_frame (s : AppState) (p : GatewayChatEventPayload) :
  (phase (applyChatEvent s p) = phase s
   /\ gatewayConfig (applyChatEvent s p) = gatewayConfig s
   /\ sessionDefaults (applyChatEvent s p) = sessionDefaults s
   /\ sessionKey (applyChatEvent s p) = sessionKey s
   /\ sessionOptions (applyChatEvent s p) = sessionOptions s
   /\ modelOptions (applyChatEvent s p) = modelOptions s
   /\ selectedModel (applyChatEvent s p) = selectedModel s
   /\ chatMessages (applyChatEvent s p) = chatMessages s
   /\ chatLoading (applyChatEvent s p) = chatLoading s
   /\ talkEnabled (applyChatEvent s p) = talkEnabled s
   /\ voiceWakeEnabled (applyChatEvent s p) = voiceWakeEnabled s
   /\ cameraEnabled (applyChatEvent s p) = cameraEnabled s
   /\ locationEnabled (applyChatEvent s p) = locationEnabled s
   /\ reconnectOnLaunch (applyChatEvent s p) = reconnectOnLaunch s
   /\ rawEvents (applyChatEvent s p) = rawEvents s)
  /\ (ev_state p <> "delta" -> ev_state p <> "final" ->
      ev_state p <> "aborted" -> ev_state p <> "error" ->
      applyChatEvent s p = s).
Proof.
  split.
  - unfold applyChatEvent.
    destruct (negb _); [repeat split|].
    repeat (destruct (String.eqb (ev_state p) _);
            [destruct (isForeignRun s p); repeat split|]).
    repeat split.
  - intros Hd Hf Ha He. unfold applyChatEvent.
    apply String.eqb_neq in Hd, Hf, Ha, He. rewrite Hd, Hf, Ha, He.
    now destruct (negb _).
Qed.

Lemma applyChatEvent_frame_witness :
  applyChatEvent streamingState unknownStateEvent = streamingState.
Proof.
  apply (applyChatEvent_frame streamingState unknownStateEvent); discriminate.
Defined.

(** ** Credential persistence *)

(** C7. A persistence pass after hydration first writes, to the plain store,
    a record with the current [host], [port] and [tls] and with [token],
    [password] and [setupCode] empty; then, when token and password are both
    empty, it deletes the secure record and writes nothing there, and
    otherwise it writes to the secure store a record made of exactly the
    token and the password. *)
Theorem persistGatewayConfig_hydrated (state : AppState) :
  let cfg := gatewayConfig state in
  head (persistGatewayConfig true state)
  = Some (AsyncStorage_setItem gatewayConfigStorageKey
            (JObj [ ("host", JStr (host cfg)); ("port", JStr (port cfg));
                    ("tls", JBool (tls cfg)); ("token", JStr "");
                    ("password", JStr ""); ("setupCode", JStr "") ]))
  /\ (token cfg = "" /\ password cfg = "" ->
      tail (persistGatewayConfig true state)
      = [SecureStore_deleteItemAsync gatewaySecretsStorageKey])
  /\ (~ (token cfg = "" /\ password cfg = "") ->
      tail (persistGatewayConfig true state)
      = [SecureStore_setItemAsync gatewaySecretsStorageKey
           (JObj [ ("token", JStr (token cfg));
                   ("password", JStr (password cfg)) ])]).
Proof.
  intros cfg. unfold persistGatewayConfig. simpl negb. cbv iota.
  fold cfg. split; [reflexivity|]. simpl tail. split.
  - intros [-> ->]. reflexivity.
  - intros H.
    destruct (str_falsy (token cfg)) eqn:T, (str_falsy (password cfg)) eqn:P;
      try reflexivity.
    apply str_falsy_true in T, P. now destruct H.
Qed.

Lemma persistGatewayConfig_hydrated_witness :
  tail (persistGatewayConfig true (initialState 0))
  = [SecureStore_deleteItemAsync gatewaySecretsStorageKey]
  /\ tail (persistGatewayConfig true tokenState)
     = [SecureStore_setItemAsync gatewaySecretsStorageKey
          (JObj [ ("token", JStr "s3cret"); ("password", JStr "") ])].
Proof.
  split.
  - apply (persistGatewayConfig_hydrated (initialState 0)).
    split; reflexivity.
  - apply (persistGatewayConfig_hydrated tokenState).
    intros [H _]. discriminate H.
Defined.

(** ** Capability toggles *)

Section TalkToggle.

Implicit Types (env : TalkEnv) (w : World) (enabled : bool).

Lemma reconnectCalls_app xs ys :
  reconnectCalls (xs ++ ys) = reconnectCalls xs ++ reconnectCalls ys.
Proof. unfold reconnectCalls. apply omap_app. Qed.

End TalkToggle.

(** C3, amended. When a transport manager and an operator client are
    available, [setTalkEnabled enabled] always resolves for its caller and
    leaves [talkEnabled] at the requested value.  If the [talk.mode] request
    fails, the failure becomes the [statusText] and
    [reconnectWithCapabilities] is not called; if it succeeds,
    [reconnectWithCapabilities] is called once, with a snapshot whose
    [talkEnabled] is the requested value. *)
Theorem setTalkEnabled_outcome (env : TalkEnv) (enabled : bool) (w : World) :
  hasManager env = true ->
  hasClient env = true ->
  let w' := (setTalkEnabled env enabled w).1 in
  (setTalkEnabled env enabled w).2 = Resolved
  /\ talkEnabled (w_state w') = enabled
  /\ (forall error, talkModeResult env = Some error ->
        statusText (w_state w') = normalizeGatewayMessage error
        /\ reconnectCalls (w_calls w') = reconnectCalls (w_calls w))
  /\ (talkModeResult env = None ->
        exists config,
          reconnectCalls (w_calls w') = reconnectCalls (w_calls w) ++ [config]
          /\ cap_talkEnabled config = enabled).
Proof.
  intros Hm Hc. unfold setTalkEnabled. rewrite Hm, Hc. simpl negb. cbv iota.
  destruct (talkModeResult env) as [e|] eqn:T.
  - simpl. split; [reflexivity|]. split; [reflexivity|]. split.
    + intros err [= <-]. split; [reflexivity|].
      rewrite reconnectCalls_app. simpl. apply app_nil_r.
    + discriminate.
  - assert (Hcalls : forall config,
               reconnectCalls
                 ((w_calls w ++ [client_request_talk_mode enabled 8000])
                  ++ [manager_reconnectWithCapabilities config])
               = reconnectCalls (w_calls w) ++ [config]).
    { intros config. rewrite !reconnectCalls_app. simpl.
      now rewrite app_nil_r. }
    destruct (reconnectResult env) as [e|]; simpl;
      (split; [reflexivity|]; split; [reflexivity|]; split; [discriminate|];
       intros _; eexists; split; [apply Hcalls | reflexivity]).
Qed.

Lemma setTalkEnabled_outcome_witness :
  (exists config,
     reconnectCalls (w_calls (setTalkEnabled talkModeAccepted true freshWorld).1)
     = reconnectCalls (w_calls freshWorld) ++ [config]
     /\ cap_talkEnabled config = true)
  /\ statusText (w_state (setTalkEnabled talkModeTimesOut true freshWorld).1)
     = "talk.mode timed out".
Proof.
  split.
  - apply (setTalkEnabled_outcome talkModeAccepted true freshWorld);
      reflexivity.
  - destruct (setTalkEnabled_outcome talkModeTimesOut true freshWorld
                eq_refl eq_refl) as (_ & _ & Hfail & _).
    apply (Hfail (JsError "talk.mode timed out")). reflexivity.
Defined.

(** C3 as stated fails: when the [talk.mode] request is rejected, the flag is
    set and the failure is shown, but [reconnectWithCapabilities] is never
    called. *)
Lemma talk_mode_failure_skips_reconnect :
  hasManager talkModeTimesOut = true
  /\ hasClient talkModeTimesOut = true
  /\ talkModeResult talkModeTimesOut = Some (JsError "talk.mode timed out")
  /\ talkEnabled (w_state (setTalkEnabled talkModeTimesOut true freshWorld).1) = true
  /\ w_calls (setTalkEnabled talkModeTimesOut true freshWorld).1
     = [client_request_talk_mode true 8000]
  /\ reconnectCalls (w_calls (setTalkEnabled talkModeTimesOut true freshWorld).1) = [].
Proof. repeat split. Qed.

(** ** History de-duplication *)

Section Dedupe.

Implicit Types (m : ChatMessage) (st : gset string * list ChatMessage).

Lemma string_length_app (a b : string) :
  String.length (a +:+ b) = (String.length a + String.length b)%nat.
Proof. induction a as [|c a IH]; simpl; [reflexivity | now rewrite IH]. Qed.

Lemma string_app_inv_tail (x a b : string) : a +:+ x = b +:+ x -> a = b.
Proof.
  revert b. induction a as [|c a IH]; intros [|c' b] H.
  - reflexivity.
  - apply (f_equal String.length) in H.
    rewrite !string_length_app in H. simpl in H. lia.
  - apply (f_equal String.length) in H.
    rewrite !string_length_app in H. simpl in H. lia.
  - cbn in H. injection H as -> H. f_equal. now apply IH.
Qed.

(** With role and trimmed text equal, equal keys mean equal timestamps. *)
Lemma messageKey_timestamp m1 m2 :
  role m1 = role m2 -> trim (text m1) = trim (text m2) ->
  messageKey m1 = messageKey m2 -> timestamp m1 = timestamp m2.
Proof.
  unfold messageKey. intros -> -> H.
  apply (inj (String.app _)) in H. apply (inj (String.app _)) in H.
  apply string_app_inv_tail in H. now apply (inj pretty) in H.
Qed.

Lemma ChatRole_eqb_eq (a b : ChatRole) : ChatRole_eqb a b = true <-> a = b.
Proof. destruct a, b; simpl; split; congruence. Qed.

Lemma nearDuplicate_true m previous :
  nearDuplicate m previous = true
  <-> role m = role previous /\ role m <> RoleUser
      /\ trim (text m) <> "" /\ trim (text m) = trim (text previous)
      /\ Z.abs (timestamp m - timestamp previous) <= 30000.
Proof.
  unfold nearDuplicate, nearDuplicateWindowMs.
  rewrite !andb_true_iff, negb_true_iff, !ChatRole_eqb_eq, String.eqb_eq,
    Z.leb_le, Nat.ltb_lt.
  assert (Hu : ChatRole_eqb (role m) RoleUser = false <-> role m <> RoleUser).
  { rewrite <- ChatRole_eqb_eq. now destruct (ChatRole_eqb _ _). }
  assert (Hl : (0 < String.length (trim (text m)))%nat <-> trim (text m) <> "").
  { destruct (trim (text m)); simpl; split; try congruence; lia. }
  rewrite Hu, Hl. tauto.
Qed.

Lemma dedupe_step_seen st m : seen_is_kept st -> seen_is_kept (dedupe_step st m).
Proof.
  intros Hst.
  assert (Hadd : seen_is_kept ({[messageKey m]} ∪ st.1, st.2 ++ [m])).
  { intros k. simpl. rewrite elem_of_union, elem_of_singleton, (Hst k). split.
    - intros [-> | (m' & Hin & Hk)].
      + exists m. split; [apply in_or_app; right; now left | reflexivity].
      + exists m'. split; [apply in_or_app; now left | exact Hk].
    - intros (m' & Hin & Hk). apply in_app_or in Hin as [Hin | [<- | []]].
      + right. now exists m'.
      + now left. }
  unfold dedupe_step. destruct (bool_decide _); [exact Hst|].
  destruct (last st.2) as [previous|]; [|exact Hadd].
  destruct (nearDuplicate m previous); [exact Hst | exact Hadd].
Qed.

Lemma dedupe_loop_seen ms st : seen_is_kept st -> seen_is_kept (dedupe_loop ms st).
Proof.
  revert st. induction ms as [|m ms IH]; intros st Hst; [exact Hst|].
  apply IH, dedupe_step_seen, Hst.
Qed.

Lemma seen_is_kept_empty : seen_is_kept (∅, []).
Proof.
  intros k. simpl. split; [intros H; now apply not_elem_of_empty in H|].
  intros (m & [] & _).
Qed.

Lemma dedupe_loop_app ms1 ms2 st :
  dedupe_loop (ms1 ++ ms2) st = dedupe_loop ms2 (dedupe_loop ms1 st).
Proof. apply fold_left_app. Qed.

(** A message whose key is that of a kept message leaves the loop state
    as it is. *)
Lemma dedupe_step_seen_key st m kept :
  seen_is_kept st -> In kept st.2 -> messageKey kept = messageKey m ->
  dedupe_step st m = st.
Proof.
  intros Hst Hin Hk. unfold dedupe_step.
  rewrite bool_decide_eq_true_2; [reflexivity|].
  apply Hst. now exists kept.
Qed.

(** A near duplicate of the last kept message leaves the loop state as it
    is. *)
Lemma dedupe_step_near st m previous :
  last st.2 = Some previous -> nearDuplicate m previous = true ->
  dedupe_step st m = st.
Proof.
  intros Hl Hn. unfold dedupe_step. rewrite Hl, Hn.
  now destruct (bool_decide _).
Qed.

Lemma dedupe_loop_one m st : dedupe_loop [m] st = dedupe_step st m.
Proof. reflexivity. Qed.

Lemma dedupe_single m : dedupe_loop [m] (∅, []) = ({[messageKey m]} ∪ ∅, [m]).
Proof.
  unfold dedupe_loop, dedupe_step. simpl.
  rewrite bool_decide_eq_false_2; [reflexivity | apply not_elem_of_empty].
Qed.

(** In any list, a near duplicate that directly follows the message kept
    last is dropped. *)
Lemma near_duplicate_after_kept before m1 m2 :
  last (dedupeChatMessages (before ++ [m1])) = Some m1 ->
  nearDuplicate m2 m1 = true ->
  dedupeChatMessages (before ++ [m1; m2]) = dedupeChatMessages (before ++ [m1]).
Proof.
  intros Hl Hn. change (before ++ [m1; m2]) with (before ++ [m1] ++ [m2]).
  rewrite app_assoc. unfold dedupeChatMessages in *.
  rewrite (dedupe_loop_app (before ++ [m1]) [m2]), dedupe_loop_one.
  now rewrite (dedupe_step_near _ m2 m1).
Qed.

End Dedupe.

(** C6. Of two consecutive records with the same role, not [user], and the
    same non-empty trimmed text, the list made of a record at [t] and one at
    [t + 29000] keeps exactly the first, and the list made of a record at [t]
    and one at [t + 31000] keeps both; and wherever it stands in the list, a
    record whose key [role|timestamp|trimmedText] is that of a record already
    kept is dropped. *)
Theorem dedupeChatMessages_rules :
  (forall m1 m2,
      role m2 = role m1 -> role m1 <> RoleUser ->
      trim (text m2) = trim (text m1) -> trim (text m1) <> "" ->
      (timestamp m2 = timestamp m1 + 29000 ->
       dedupeChatMessages [m1; m2] = [m1])
      /\ (timestamp m2 = timestamp m1 + 31000 ->
          dedupeChatMessages [m1; m2] = [m1; m2]))
  /\ (forall before m after kept,
        In kept (dedupeChatMessages before) ->
        messageKey kept = messageKey m ->
        dedupeChatMessages (before ++ m :: after)
        = dedupeChatMessages (before ++ after)).
Proof.
  split.
  - intros m1 m2 Hr Hu Ht He.
    unfold dedupeChatMessages.
    change [m1; m2] with ([m1] ++ [m2]).
    rewrite dedupe_loop_app, dedupe_single, dedupe_loop_one.
    split; intros Hts.
    + rewrite (dedupe_step_near _ m2 m1); [reflexivity | reflexivity |].
      apply nearDuplicate_true. rewrite Hr, Ht, Hts.
      repeat split; try assumption. lia.
    + unfold dedupe_step. simpl.
      rewrite bool_decide_eq_false_2.
      * assert (Hn : nearDuplicate m2 m1 = false).
        { destruct (nearDuplicate m2 m1) eqn:N; [|reflexivity].
          apply nearDuplicate_true in N as (_ & _ & _ & _ & N). lia. }
        now rewrite Hn.
      * rewrite elem_of_union, elem_of_singleton. intros [E | E].
        -- apply messageKey_timestamp in E; [lia | assumption | assumption].
        -- now apply not_elem_of_empty in E.
  - intros before m after kept Hin Hk. unfold dedupeChatMessages in *.
    change (m :: after) with ([m] ++ after).
    rewrite !dedupe_loop_app, dedupe_loop_one. do 2 f_equal.
    apply (dedupe_step_seen_key _ m kept); try assumption.
    apply dedupe_loop_seen, seen_is_kept_empty.
Qed.

Lemma dedupeChatMessages_rules_witness :
  dedupeChatMessages [helloAt 1000; helloAt 30000] = [helloAt 1000]
  /\ dedupeChatMessages [helloAt 1000; helloAt 32000] = [helloAt 1000; helloAt 32000]
  /\ dedupeChatMessages ([helloAt 1000; questionAt 2000] ++ helloAt 1000 :: [questionAt 50000])
     = dedupeChatMessages ([helloAt 1000; questionAt 2000] ++ [questionAt 50000]).
Proof.
  destruct dedupeChatMessages_rules as [Hnear Hkey].
  destruct (Hnear (helloAt 1000) (helloAt 30000)) as [H29 _];
    [reflexivity | discriminate | reflexivity | discriminate |].
  destruct (Hnear (helloAt 1000) (helloAt 32000)) as [_ H31];
    [reflexivity | discriminate | reflexivity | discriminate |].
  split; [apply H29; reflexivity|].
  split; [apply H31; reflexivity|].
  apply (Hkey [helloAt 1000; questionAt 2000] (helloAt 1000) [questionAt 50000]
           (helloAt 1000)).
  - left. reflexivity.
  - reflexivity.
Defined.

(** ** Session selection *)

Section SessionSelection.

Implicit Types (s : AppState) (d : SessionDefaults) (w : Runtime).

Lemma normalize_nonblank k (defaults : option SessionDefaults) :
  trimmed_defaults defaults -> trim k <> "" ->
  trim (normalizeSessionKeyForDefaults k defaults) <> "".
Proof.
  intros Hd Hk.
  destruct (normalize_cases k defaults) as [-> | (_ & sd & -> & Hm & ->)].
  - now rewrite trim_idem.
  - simpl in Hd. now rewrite Hd.
Qed.

Lemma nonblank_nonempty k : trim k <> "" -> k <> "".
Proof. intros H ->. now apply H. Qed.

Lemma steady_current_key s :
  steady s ->
  str_or (normalizeSessionKeyForDefaults (sessionKey s) (sessionDefaults s))
         (sessionKey s)
  = normalizeSessionKeyForDefaults (sessionKey s) (sessionDefaults s).
Proof. intros [_ Hk]. now apply str_or_nonempty, normalize_nonempty. Qed.

Lemma nextKeyFor_nonblank requested s :
  trimmed_defaults (sessionDefaults s) -> trim (nextKeyFor requested s) <> "".
Proof.
  intros Hd. unfold nextKeyFor.
  set (x := str_or (trim requested) "main").
  assert (Hx : trim x <> "").
  { unfold x, str_or. destruct (str_falsy (trim requested)) eqn:E.
    - vm_compute. discriminate.
    - rewrite trim_idem. now apply str_falsy_false. }
  rewrite (str_or_nonempty _ "main" (normalize_nonempty x _ Hx)).
  now apply normalize_nonblank.
Qed.

(** Installing parsed defaults re-canonicalises the key and lists it. *)
Lemma installSessionDefaults_lists d s :
  trimmed_defaults (Some d) -> trim (sessionKey s) <> "" ->
  steady (installSessionDefaults d s)
  /\ lists_current_key (installSessionDefaults d s).
Proof.
  intros Hd Hk. unfold steady, lists_current_key, installSessionDefaults. simpl.
  pose proof (normalize_nonempty (sessionKey s) (Some d) Hk) as Hne.
  rewrite (str_or_nonempty _ (sessionKey s) Hne).
  rewrite (normalize_idem (sessionKey s) (Some d) Hd).
  set (nsk := normalizeSessionKeyForDefaults (sessionKey s) (Some d)) in *.
  split; [split; [exact Hd | now apply normalize_nonblank]|].
  destruct (includes _ nsk) eqn:I.
  - apply includes_In in I.
    destruct (0 <? List.length _)%nat; [exact I | now left].
  - simpl. now left.
Qed.

(** A sessions response canonicalises the key and lists it. *)
Lemma applySessionsList_lists refDefaults sessions s :
  steady s ->
  steady (applySessionsList refDefaults sessions s)
  /\ lists_current_key (applySessionsList refDefaults sessions s).
Proof.
  intros Hs. pose proof (steady_current_key s Hs) as Hr. destruct Hs as [Hd Hk].
  unfold steady, lists_current_key, applySessionsList. simpl. rewrite Hr.
  rewrite (normalize_idem (sessionKey s) _ Hd).
  split; [split; [exact Hd | now apply normalize_nonblank]|].
  destruct (includes _ _) eqn:I; [now apply includes_In in I | now left].
Qed.

(** A history response canonicalises the key and leaves the list alone. *)
Lemma applyHistory_lists showLoading quiet deduped s :
  steady s ->
  steady (applyHistory showLoading quiet deduped s)
  /\ (lists_current_key s ->
      lists_current_key (applyHistory showLoading quiet deduped s)).
Proof.
  intros Hs. pose proof (steady_current_key s Hs) as Hr. destruct Hs as [Hd Hk].
  unfold steady, lists_current_key, applyHistory. simpl. rewrite Hr.
  rewrite (normalize_idem (sessionKey s) _ Hd).
  split; [split; [exact Hd | now apply normalize_nonblank] | auto].
Qed.

Lemma keeps_session_steady update s :
  keeps_session update -> steady s -> steady (update s).
Proof.
  intros Hf [Hd Hk]. destruct (Hf s) as (E1 & E2 & _).
  unfold steady. now rewrite E1, E2.
Qed.

Lemma keeps_session_lists update s :
  keeps_session update -> lists_current_key s -> lists_current_key (update s).
Proof.
  intros Hf H. destruct (Hf s) as (E1 & E2 & E3).
  unfold lists_current_key. now rewrite E1, E2, E3.
Qed.

Lemma runUpdate_steady u s : steady s -> steady_update u -> steady (runUpdate u s).
Proof.
  intros Hs Hu. destruct u as [nextKey|d|refDefaults sessions|sl q deduped|next|f m];
    simpl in *.
  - destruct Hs as [Hd _]. now split.
  - apply installSessionDefaults_lists; [exact Hu | apply Hs].
  - apply applySessionsList_lists, Hs.
  - apply applyHistory_lists, Hs.
  - exact Hu.
  - now apply keeps_session_steady.
Qed.

Lemma enqueue_steady u w :
  steady_runtime w -> steady_update u -> steady_runtime (enqueue u w).
Proof.
  intros (Hs & Hm & Hq) Hu.
  split; [exact Hs|]. split; [exact Hm|].
  apply Forall_app. split; [exact Hq | now constructor].
Qed.

Lemma perform_steady a w :
  steady_runtime w -> allowed a -> steady_runtime (perform a w).
Proof.
  intros Hw Ha. pose proof Hw as (Hs & Hm & Hq).
  destruct a as [requested|helloDefaults role0|sessions|sl q clock messages
                 |patch|f m| |]; simpl.
  - apply enqueue_steady; [exact Hw|]. simpl.
    apply nextKeyFor_nonblank, Hm.
  - destruct (negb _); [exact Hw|].
    destruct (parseSessionDefaults helloDefaults) as [d|] eqn:P; [|exact Hw].
    apply enqueue_steady; [exact Hw|]. exact (parseSessionDefaults_trimmed _ _ P).
  - now apply enqueue_steady.
  - now apply enqueue_steady.
  - assert (Hn : steady (patch (rt_mirror w))) by now apply keeps_session_steady.
    split; [exact Hs|]. split; [exact Hn|].
    apply Forall_app. split; [exact Hq | now constructor].
  - now apply enqueue_steady.
  - destruct (rt_queue w) as [|u rest] eqn:Q; [exact Hw|].
    apply Forall_cons in Hq as [Hu Hrest].
    pose proof (runUpdate_steady u _ Hs Hu) as Hn.
    split; [exact Hn|]. split; [|exact Hrest].
    simpl. now destruct (writesMirror u).
  - split; [exact Hs|]. split; [exact Hs | exact Hq].
Qed.

Lemma reachable_steady now listed w :
  runtime_reachable now listed w -> steady_runtime w.
Proof.
  induction 1 as [|listed w a _ IH Ha].
  - split; [|split; [|constructor]]; (split; [exact I | discriminate]).
  - now apply perform_steady.
Qed.

Lemma rt_perform_eq now listed w a listed' w' :
  runtime_reachable now listed w -> allowed a ->
  listed' = listedAfter a w listed -> w' = perform a w ->
  runtime_reachable now listed' w'.
Proof. intros H Ha -> ->. now apply rt_perform. Qed.

End SessionSelection.

Ltac run_back :=
  eapply rt_perform_eq; [ | | | reflexivity ]; [ | | reflexivity ]; [ | exact I ].

(** C5, amended. In every state the store reaches from the initial state
    through [setSessionKey], the [onHello] handler, sessions responses and
    its other updates, [sessionOptions] contains the current [sessionKey] in
    canonical form as long as no [setSessionKey] update and no whole-state
    write has run since [onHello] or a sessions response last wrote the
    list: these two put the canonical current key in the list whatever the
    server reported, and [setSessionKey] writes [sessionKey] only. *)
Theorem sessionOptions_lists_current_key (now : Z) (w : Runtime) :
  runtime_reachable now true w -> lists_current_key (rt_state w).
Proof.
  intros Hr. remember true as listed eqn:Hl in Hr.
  induction Hr as [|listed w a Hr IH Ha]; [now left|].
  pose proof (reachable_steady now listed w Hr) as (Hs & _ & Hq).
  destruct a as [requested|helloDefaults role0|sessions|sl q clock messages
                 |patch|f m| |]; simpl in *; try (now apply IH).
  - destruct (negb _); [now apply IH|].
    destruct (parseSessionDefaults helloDefaults); now apply IH.
  - destruct (rt_queue w) as [|u rest]; [now apply IH|].
    apply Forall_cons in Hq as [Hu _].
    destruct u as [nextKey|d|refDefaults rows|sl q deduped|next|f m];
      simpl in *; try discriminate Hl.
    + apply installSessionDefaults_lists; [exact Hu | apply Hs].
    + now apply applySessionsList_lists.
    + apply applyHistory_lists; [exact Hs | now apply IH].
    + apply keeps_session_lists; [exact Hu | now apply IH].
Qed.

Lemma sessionOptions_lists_current_key_witness :
  runtime_reachable 0 true listedRuntime
  /\ sessionOptions (rt_state listedRuntime)
     = ["agent:ops:primary"; "agent:ops:work"; "agent:ops:notes"]
  /\ lists_current_key (rt_state listedRuntime).
Proof.
  assert (Hr : runtime_reachable 0 true listedRuntime).
  { unfold listedRuntime. do 4 run_back. apply rt_initial. }
  split; [exact Hr|]. split; [reflexivity|].
  apply (sessionOptions_lists_current_key 0 listedRuntime Hr).
Defined.

(** C5 as stated fails: [setSessionKey] replaces [sessionKey] and leaves
    [sessionOptions] alone, so a key that is not listed stays unlisted until
    a sessions response arrives; with no operator client, none does. *)
Lemma setSessionKey_unlisted_key :
  runtime_reachable 0 false unlistedRuntime
  /\ rt_queue unlistedRuntime = []
  /\ sessionKey (rt_state unlistedRuntime) = "work"
  /\ sessionOptions (rt_state unlistedRuntime) = ["main"]
  /\ ~ lists_current_key (rt_state unlistedRuntime).
Proof.
  split.
  { unfold unlistedRuntime. do 2 run_back. apply rt_initial. }
  split; [reflexivity|]. split; [reflexivity|]. split; [reflexivity|].
  unfold lists_current_key. vm_compute. intros [H | []]. discriminate H.
Qed.

(* ===================================================================== *)
(** * Further properties of the store                                     *)
(* ===================================================================== *)

(** ** Session options *)

Section SessionOptions.

Implicit Types (d : option SessionDefaults) (seen : gset string).

Lemma seen_is_pushed_snoc seen normalized x :
  seen_is_pushed seen normalized ->
  seen_is_pushed ({[x]} ∪ seen) (normalized ++ [x]).
Proof.
  intros H y. rewrite elem_of_union, elem_of_singleton, (H y), in_app_iff.
  simpl. intuition congruence.
Qed.

(** What the loop returns, from any loop state. *)
Lemma normalizeSessionOptions_loop_spec options d seen normalized :
  seen_is_pushed seen normalized ->
  NoDup normalized ->
  let out := normalizeSessionOptions_loop options d seen normalized in
  NoDup out
  /\ (forall x, In x out <->
        In x normalized
        \/ (x <> "" /\ exists o, In o options
                                 /\ normalizeSessionKeyForDefaults o d = x))
  /\ exists pushed, out = normalized ++ pushed
       /\ sublist pushed (map (fun o => normalizeSessionKeyForDefaults o d) options).
Proof.
  revert seen normalized.
  induction options as [|o rest IH]; intros seen normalized Hs Hn; simpl.
  - split; [exact Hn|]. split.
    + intros x. split; [now left | intros [H | (_ & o & [] & _)]; exact H].
    + exists []. split; [now rewrite app_nil_r | constructor].
  - set (c := normalizeSessionKeyForDefaults o d).
    destruct (str_falsy c) eqn:E; simpl.
    + apply str_falsy_true in E.
      destruct (IH seen normalized Hs Hn) as (H1 & H2 & pushed & H3 & H4).
      split; [exact H1|]. split.
      * intros x. rewrite (H2 x). split.
        -- intros [H | (Hx & o' & Ho & Hn')]; [now left|].
           right. split; [exact Hx|]. exists o'. split; [now right | exact Hn'].
        -- intros [H | (Hx & o' & [<- | Ho] & Hn')]; [now left | |].
           ++ exfalso. apply Hx. now rewrite <- Hn'.
           ++ right. split; [exact Hx|]. now exists o'.
      * exists pushed. split; [exact H3 | now apply sublist_cons].
    + apply str_falsy_false in E.
      destruct (bool_decide (c ∈ seen)) eqn:B.
      * apply bool_decide_eq_true in B. apply Hs in B.
        destruct (IH seen normalized Hs Hn) as (H1 & H2 & pushed & H3 & H4).
        split; [exact H1|]. split.
        -- intros x. rewrite (H2 x). split.
           ++ intros [H | (Hx & o' & Ho & Hn')]; [now left|].
              right. split; [exact Hx|]. exists o'. split; [now right | exact Hn'].
           ++ intros [H | (Hx & o' & [<- | Ho] & Hn')]; [now left | |].
              ** left. now rewrite <- Hn'.
              ** right. split; [exact Hx|]. now exists o'.
        -- exists pushed. split; [exact H3 | now apply sublist_cons].
      * apply bool_decide_eq_false in B.
        assert (Hnew : ~ In c normalized) by (intros H; apply B, Hs, H).
        assert (Hn' : NoDup (normalized ++ [c])).
        { apply NoDup_app. split; [exact Hn|]. split.
          - intros x Hx Hc. apply list_elem_of_In in Hx, Hc.
            destruct Hc as [<- | []]. now apply Hnew.
          - apply NoDup_singleton. }
        destruct (IH _ _ (seen_is_pushed_snoc seen normalized c Hs) Hn')
          as (H1 & H2 & pushed & H3 & H4).
        split; [exact H1|]. split.
        -- intros x. rewrite (H2 x), in_app_iff. simpl. split.
           ++ intros [[H | [<- | []]] | (Hx & o' & Ho & Hno)].
              ** now left.
              ** right. split; [exact E|]. exists o. split; [now left | reflexivity].
              ** right. split; [exact Hx|]. exists o'. split; [now right | exact Hno].
           ++ intros [H | (Hx & o' & [<- | Ho] & Hno)].
              ** left. now left.
              ** left. right. left. exact Hno.
              ** right. split; [exact Hx|]. now exists o'.
        -- exists (c :: pushed). split.
           ++ rewrite H3. now rewrite <- app_assoc.
           ++ now apply sublist_skip.
Qed.

(** On options that are already distinct, non-empty and canonical, the loop
    pushes every one of them. *)
Lemma normalizeSessionOptions_loop_fixed options d seen normalized :
  seen_is_pushed seen normalized ->
  NoDup (normalized ++ options) ->
  (forall x, In x options -> x <> "" /\ normalizeSessionKeyForDefaults x d = x) ->
  normalizeSessionOptions_loop options d seen normalized = normalized ++ options.
Proof.
  revert seen normalized.
  induction options as [|o rest IH]; intros seen normalized Hs Hn Hc; simpl.
  - now rewrite app_nil_r.
  - destruct (Hc o (or_introl eq_refl)) as [Hne Hfix]. rewrite Hfix.
    apply str_falsy_false in Hne. rewrite Hne. simpl.
    assert (Hnew : o ∉ seen).
    { intros H. apply Hs in H. apply NoDup_app in Hn as (_ & Hd & _).
      apply (Hd o); [now apply list_elem_of_In | left]. }
    rewrite (bool_decide_eq_false_2 _ Hnew).
    rewrite (IH ({[o]} ∪ seen) (normalized ++ [o])).
    + now rewrite <- app_assoc.
    + now apply seen_is_pushed_snoc.
    + now rewrite <- app_assoc.
    + intros x Hx. apply Hc. now right.
Qed.

Lemma seen_is_pushed_empty : seen_is_pushed ∅ [].
Proof. intros x. split; [intros H; now apply not_elem_of_empty in H | intros []]. Qed.

End SessionOptions.

Lemma normalizeSessionOptions_members
    (options : list string) (d : option SessionDefaults) :
  NoDup (normalizeSessionOptions options d)
  /\ (forall x, In x (normalizeSessionOptions options d) <->
        x <> "" /\ exists o, In o options /\ normalizeSessionKeyForDefaults o d = x).
Proof.
  destruct (normalizeSessionOptions_loop_spec options d ∅ []
              seen_is_pushed_empty (NoDup_nil_2 (A:=string)))
    as (H1 & H2 & _).
  fold (normalizeSessionOptions options d) in *.
  split; [exact H1|].
  intros x. rewrite (H2 x). split; [intros [[] | H]; exact H | now right].
Qed.

Section FirstSeenOrder.

Lemma filter_filter_and {A} (P Q : A -> bool) (l : list A) :
  List.filter P (List.filter Q l) = List.filter (fun y => P y && Q y) l.
Proof.
  induction l as [|x l IH]; simpl; [reflexivity|].
  destruct (Q x); simpl; rewrite ?andb_true_r, ?andb_false_r;
    [destruct (P x)|]; now rewrite IH.
Qed.

Lemma includes_snoc acc c y :
  includes (acc ++ [c]) y = includes acc y || String.eqb y c.
Proof. unfold includes. rewrite existsb_app. simpl. now rewrite orb_false_r. Qed.

(** From any loop state, the loop appends the first occurrences of the
    non-empty canonical forms that were not pushed before. *)
Lemma normalizeSessionOptions_loop_keep_first options d seen normalized :
  seen_is_pushed seen normalized ->
  normalizeSessionOptions_loop options d seen normalized
  = normalized
    ++ List.filter (fun y => negb (includes normalized y))
         (keep_first
            (List.filter (fun x => negb (str_falsy x))
               (map (fun o => normalizeSessionKeyForDefaults o d) options))).
Proof.
  revert seen normalized.
  induction options as [|o rest IH]; intros seen normalized Hs; simpl.
  - now rewrite app_nil_r.
  - set (c := normalizeSessionKeyForDefaults o d).
    destruct (str_falsy c) eqn:E; simpl; [now apply IH|].
    destruct (bool_decide (c ∈ seen)) eqn:B.
    + apply bool_decide_eq_true in B. apply Hs, includes_In in B.
      rewrite B. simpl. rewrite (IH seen normalized Hs). f_equal.
      rewrite filter_filter_and. apply List.filter_ext. intros y.
      destruct (String.eqb_spec y c) as [-> | N]; simpl;
        [now rewrite B | now rewrite andb_true_r].
    + apply bool_decide_eq_false in B.
      assert (I : includes normalized c = false).
      { destruct (includes normalized c) eqn:I; [|reflexivity].
        apply includes_In, Hs in I. now destruct B. }
      rewrite I. simpl.
      rewrite (IH _ _ (seen_is_pushed_snoc seen normalized c Hs)).
      rewrite <- app_assoc. simpl. do 2 f_equal.
      rewrite filter_filter_and. apply List.filter_ext. intros y.
      now rewrite includes_snoc, negb_orb.
Qed.

Lemma filter_all {A} (l : list A) : List.filter (fun _ => true) l = l.
Proof. induction l as [|x l IH]; simpl; [reflexivity | now rewrite IH]. Qed.

End FirstSeenOrder.

(** X1. [normalizeSessionOptions] returns the non-empty canonical forms of
    the options with every later repetition removed: each form exactly once,
    nothing else, in the order in which the forms first come up. *)
Theorem normalizeSessionOptions_spec
    (options : list string) (d : option SessionDefaults) :
  normalizeSessionOptions options d
  = keep_first
      (List.filter (fun x => negb (str_falsy x))
         (map (fun o => normalizeSessionKeyForDefaults o d) options))
  /\ NoDup (normalizeSessionOptions options d)
  /\ (forall x, In x (normalizeSessionOptions options d) <->
        x <> "" /\ exists o, In o options /\ normalizeSessionKeyForDefaults o d = x)
  /\ sublist (normalizeSessionOptions options d)
       (map (fun o => normalizeSessionKeyForDefaults o d) options).
Proof.
  split.
  { unfold normalizeSessionOptions.
    rewrite (normalizeSessionOptions_loop_keep_first options d ∅ []
               seen_is_pushed_empty).
    simpl. apply filter_all. }
  destruct (normalizeSessionOptions_loop_spec options d ∅ []
              seen_is_pushed_empty (NoDup_nil_2 (A:=string)))
    as (H1 & H2 & pushed & H3 & H4).
  fold (normalizeSessionOptions options d) in *.
  split; [exact H1|]. split.
  - intros x. rewrite (H2 x). split; [intros [[] | H]; exact H | now right].
  - now rewrite H3.
Qed.

(** X2. Normalising an already normalised option list changes nothing, for
    defaults that are absent or whose main session key is trimmed. *)
Theorem normalizeSessionOptions_idempotent
    (options : list string) (d : option SessionDefaults) :
  trimmed_defaults d ->
  normalizeSessionOptions (normalizeSessionOptions options d) d
  = normalizeSessionOptions options d.
Proof.
  intros Hd.
  destruct (normalizeSessionOptions_members options d) as (Hn & Hin).
  unfold normalizeSessionOptions at 1.
  rewrite normalizeSessionOptions_loop_fixed; [reflexivity | | exact Hn |].
  - apply seen_is_pushed_empty.
  - intros x Hx. apply Hin in Hx as (Hne & o & _ & <-).
    split; [exact Hne | now apply normalize_idem].
Qed.

(** ** History de-duplication, continued *)

Section DedupeMore.

Implicit Types (m : ChatMessage) (st : gset string * list ChatMessage).

(** A step keeps the state or appends the message. *)
Lemma dedupe_step_cases st m :
  dedupe_step st m = st
  \/ (dedupe_step st m = ({[messageKey m]} ∪ st.1, st.2 ++ [m])
      /\ (messageKey m ∉ st.1)
      /\ forall previous, last st.2 = Some previous ->
                          nearDuplicate m previous = false).
Proof.
  unfold dedupe_step. destruct (bool_decide _) eqn:B; [now left|].
  apply bool_decide_eq_false in B.
  destruct (last st.2) as [previous|] eqn:L.
  - destruct (nearDuplicate m previous) eqn:N; [now left|].
    right. repeat split; [exact B|]. now intros ? [= <-].
  - right. repeat split; [exact B|]. discriminate.
Qed.

(** The loop only appends, and what it appends is taken in order from the
    messages it walks over. *)
Lemma dedupe_loop_appends ms st :
  exists kept, (dedupe_loop ms st).2 = st.2 ++ kept /\ sublist kept ms.
Proof.
  revert st. induction ms as [|m ms IH]; intros st.
  - exists []. split; [now rewrite app_nil_r | constructor].
  - change (dedupe_loop (m :: ms) st) with (dedupe_loop ms (dedupe_step st m)).
    destruct (IH (dedupe_step st m)) as (kept & -> & Hsub).
    destruct (dedupe_step_cases st m) as [-> | (-> & _)].
    + exists kept. split; [reflexivity | now apply sublist_cons].
    + exists (m :: kept). simpl. split; [now rewrite <- app_assoc|].
      now apply sublist_skip.
Qed.

Lemma no_adjacent_near_snoc l m :
  no_adjacent_near l ->
  (forall previous, last l = Some previous -> nearDuplicate m previous = false) ->
  no_adjacent_near (l ++ [m]).
Proof.
  intros Hl Hm l1 a b l2 E.
  destruct l2 as [|x l2 _] using rev_ind.
  - change (l1 ++ [a; b]) with (l1 ++ [a] ++ [b]) in E.
    rewrite app_assoc in E. apply app_inj_tail in E as [-> ->].
    apply Hm. apply last_snoc.
  - change (l1 ++ a :: b :: l2 ++ [x]) with (l1 ++ (a :: b :: l2) ++ [x]) in E.
    rewrite app_assoc in E. apply app_inj_tail in E as [-> _].
    now apply (Hl l1 a b l2).
Qed.

Lemma distinct_keys_snoc st m :
  seen_is_kept st -> distinct_keys st.2 -> messageKey m ∉ st.1 ->
  distinct_keys (st.2 ++ [m]).
Proof.
  intros Hs Hd Hm. unfold distinct_keys. rewrite map_app. simpl.
  apply NoDup_app. split; [exact Hd|]. split; [|apply NoDup_singleton].
  intros k Hk Hk'. apply list_elem_of_In in Hk, Hk'. destruct Hk' as [<- | []].
  apply Hm, Hs. apply in_map_iff in Hk as (m' & E & Hin). now exists m'.
Qed.

(** The three facts the loop keeps about its state. *)
Lemma dedupe_loop_clean ms st :
  seen_is_kept st -> distinct_keys st.2 -> no_adjacent_near st.2 ->
  seen_is_kept (dedupe_loop ms st)
  /\ distinct_keys (dedupe_loop ms st).2
  /\ no_adjacent_near (dedupe_loop ms st).2.
Proof.
  revert st. induction ms as [|m ms IH]; intros st Hs Hd Ha;
    [split; [|split]; assumption|].
  change (dedupe_loop (m :: ms) st) with (dedupe_loop ms (dedupe_step st m)).
  pose proof (dedupe_step_seen st m Hs) as Hs'.
  destruct (dedupe_step_cases st m) as [E | (E & Hk & Hn)]; rewrite E in *.
  - now apply IH.
  - apply IH; [exact Hs' | now apply distinct_keys_snoc
               | now apply no_adjacent_near_snoc].
Qed.

(** A list with distinct keys and no adjacent near duplicates goes through
    the loop untouched. *)
Lemma dedupe_loop_fixed ms st :
  seen_is_kept st -> distinct_keys (st.2 ++ ms) -> no_adjacent_near (st.2 ++ ms) ->
  (dedupe_loop ms st).2 = st.2 ++ ms.
Proof.
  revert st. induction ms as [|m ms IH]; intros st Hs Hd Ha.
  - now rewrite app_nil_r.
  - change (dedupe_loop (m :: ms) st) with (dedupe_loop ms (dedupe_step st m)).
    assert (Hstep : dedupe_step st m = ({[messageKey m]} ∪ st.1, st.2 ++ [m])).
    { unfold dedupe_step. rewrite bool_decide_eq_false_2.
      - destruct (last st.2) as [previous|] eqn:L; [|reflexivity].
        apply last_Some in L as (l' & L).
        rewrite (Ha l' previous m ms); [reflexivity|].
        rewrite L. now rewrite <- app_assoc.
      - intros Hin. apply Hs in Hin as (m' & Hin & Hk).
        unfold distinct_keys in Hd. rewrite map_app in Hd. simpl in Hd.
        apply NoDup_app in Hd as (_ & Hd & _).
        apply (Hd (messageKey m)).
        + apply list_elem_of_In, in_map_iff. now exists m'.
        + left. }
    pose proof (dedupe_step_seen st m Hs) as Hs'. rewrite Hstep in *.
    rewrite IH; simpl; rewrite <- ?app_assoc; try assumption. reflexivity.
Qed.

Lemma dedupe_empty_state_clean :
  seen_is_kept (∅, []) /\ distinct_keys [] /\ no_adjacent_near [].
Proof.
  split; [apply seen_is_kept_empty|]. split; [constructor|].
  intros l1 a b l2 E. now destruct l1.
Qed.

End DedupeMore.

Lemma dedupe_kept_sublist (messages : list ChatMessage) :
  sublist (dedupeChatMessages messages) messages.
Proof.
  unfold dedupeChatMessages.
  now destruct (dedupe_loop_appends messages (∅, [])) as (kept & -> & Hsub).
Qed.

(** X3. The messages [dedupeChatMessages] keeps are messages of the input,
    in input order; and the first message of the input is always kept, so
    only an empty input gives an empty result. *)
Theorem dedupeChatMessages_sublist (messages : list ChatMessage) :
  sublist (dedupeChatMessages messages) messages
  /\ head (dedupeChatMessages messages) = head messages.
Proof.
  unfold dedupeChatMessages. destruct messages as [|m ms].
  - split; [constructor | reflexivity].
  - change (dedupe_loop (m :: ms) (∅, []))
      with (dedupe_loop ms (dedupe_loop [m] (∅, []))).
    rewrite dedupe_single.
    destruct (dedupe_loop_appends ms ({[messageKey m]} ∪ ∅, [m]))
      as (kept & -> & Hsub).
    simpl. split; [now apply sublist_skip | reflexivity].
Qed.

(** X4. In the result of [dedupeChatMessages] no two messages have the same
    key [role|timestamp|trimmedText], and no message is a near duplicate of
    the message just before it. *)
Theorem dedupeChatMessages_clean (messages : list ChatMessage) :
  distinct_keys (dedupeChatMessages messages)
  /\ no_adjacent_near (dedupeChatMessages messages).
Proof.
  destruct dedupe_empty_state_clean as (Hs & Hd & Ha).
  now destruct (dedupe_loop_clean messages (∅, []) Hs Hd Ha) as (_ & ? & ?).
Qed.

(** X5. De-duplicating twice is de-duplicating once. *)
Theorem dedupeChatMessages_idempotent (messages : list ChatMessage) :
  dedupeChatMessages (dedupeChatMessages messages) = dedupeChatMessages messages.
Proof.
  destruct dedupe_empty_state_clean as (Hs & Hd & Ha).
  destruct (dedupe_loop_clean messages (∅, []) Hs Hd Ha) as (_ & Hd' & Ha').
  unfold dedupeChatMessages at 1.
  now rewrite (dedupe_loop_fixed _ (∅, []) Hs).
Qed.

(** X6. A [user] message is dropped only as an exact repetition: if no
    earlier message of the list has its key, it is kept, however close in
    time and text it is to the message before it. *)
Theorem dedupeChatMessages_keeps_user_message
    (before after : list ChatMessage) (m : ChatMessage) :
  role m = RoleUser ->
  (forall earlier, In earlier before -> messageKey earlier <> messageKey m) ->
  In m (dedupeChatMessages (before ++ m :: after)).
Proof.
  intros Hu Hfresh. unfold dedupeChatMessages.
  change (m :: after) with ([m] ++ after).
  rewrite !dedupe_loop_app, dedupe_loop_one.
  set (st := dedupe_loop before (∅, [])).
  destruct (dedupe_loop_appends after (dedupe_step st m)) as (kept & -> & _).
  apply in_or_app. left.
  assert (Hs : seen_is_kept st) by apply dedupe_loop_seen, seen_is_kept_empty.
  destruct (dedupe_loop_appends before (∅, [])) as (kept0 & Hk0 & Hsub0).
  fold st in Hk0. simpl in Hk0.
  unfold dedupe_step. rewrite bool_decide_eq_false_2.
  - assert (Hn : forall previous, nearDuplicate m previous = false).
    { intros previous. unfold nearDuplicate. rewrite Hu. simpl.
      now rewrite andb_false_r. }
    destruct (last st.2); [rewrite Hn|]; simpl; apply in_or_app; right; now left.
  - intros Hin. apply Hs in Hin as (m' & Hin & Hk).
    apply (Hfresh m'); [|exact Hk].
    rewrite Hk0 in Hin. apply list_elem_of_In in Hin.
    apply list_elem_of_In. eapply elem_of_sublist; eassumption.
Qed.

(** ** The message thread: [sortByTime] *)

Section SortByTime.

Implicit Types (m : ChatMessage) (sorted : list ChatMessage).

Lemma findInsertAt_app_l sorted extra m n :
  (n <= List.length sorted)%nat ->
  findInsertAt (sorted ++ extra) m n = findInsertAt sorted m n.
Proof.
  induction n as [|n IH]; intros Hn; [reflexivity|]. simpl.
  rewrite lookup_app_l by lia.
  destruct (sorted !! n) as [previous|]; [|reflexivity].
  destruct (timestamp previous >? timestamp m); [|reflexivity].
  apply IH. lia.
Qed.

(** Where the loop stops: everything to the right is later than the message,
    and the message just to the left is not. *)
Lemma findInsertAt_split sorted m :
  exists l1 l2,
    sorted = l1 ++ l2
    /\ findInsertAt sorted m (List.length sorted) = List.length l1
    /\ Forall (fun x => timestamp m < timestamp x) l2
    /\ (forall l1' x, l1 = l1' ++ [x] -> timestamp x <= timestamp m).
Proof.
  induction sorted as [|x sorted IH] using rev_ind.
  - exists [], []. repeat split; [constructor|].
    intros l1' x E. now destruct l1'.
  - rewrite length_app. simpl. rewrite Nat.add_1_r. simpl.
    rewrite list_lookup_middle by reflexivity.
    destruct (timestamp x >? timestamp m) eqn:G.
    + rewrite findInsertAt_app_l by lia.
      destruct IH as (l1 & l2 & -> & Hk & Hl2 & Hl1).
      exists l1, (l2 ++ [x]). split; [now rewrite app_assoc|].
      split; [exact Hk|]. split; [|exact Hl1].
      apply Forall_app. split; [exact Hl2|]. constructor; [lia | constructor].
    + exists (sorted ++ [x]), []. split; [now rewrite app_nil_r|].
      split; [rewrite length_app; simpl; lia|]. split; [constructor|].
      intros l1' x' E. apply app_inj_tail in E as [_ <-]. lia.
Qed.

Lemma sortByTime_step_split sorted m :
  exists l1 l2,
    sorted = l1 ++ l2
    /\ sortByTime_step sorted m = l1 ++ m :: l2
    /\ Forall (fun x => timestamp m < timestamp x) l2
    /\ (forall l1' x, l1 = l1' ++ [x] -> timestamp x <= timestamp m).
Proof.
  destruct (findInsertAt_split sorted m) as (l1 & l2 & E & Hk & Hl2 & Hl1).
  exists l1, l2. split; [exact E|]. split; [|now split].
  unfold sortByTime_step, splice_in. rewrite Hk, E.
  now rewrite take_app_length, drop_app_length.
Qed.

Lemma sortByTime_step_sorted sorted m :
  StronglySorted by_time sorted -> StronglySorted by_time (sortByTime_step sorted m).
Proof.
  intros Hs.
  destruct (sortByTime_step_split sorted m) as (l1 & l2 & -> & -> & Hl2 & Hl1).
  apply StronglySorted_app in Hs as (H12 & Hs1 & Hs2).
  assert (Hle : forall x1, x1 ∈ l1 -> timestamp x1 <= timestamp m).
  { destruct l1 as [|x l1' _] using rev_ind; [intros ? H; inversion H|].
    specialize (Hl1 l1' x eq_refl). intros x1 Hx1.
    apply elem_of_app in Hx1 as [Hx1 | Hx1].
    - apply StronglySorted_app in Hs1 as (H & _ & _).
      specialize (H x1 x Hx1 (list_elem_of_here _ _)). unfold by_time in H. lia.
    - apply list_elem_of_singleton in Hx1 as ->. exact Hl1. }
  apply StronglySorted_app_2.
  - intros x1 x2 Hx1 Hx2. apply elem_of_cons in Hx2 as [-> | Hx2].
    + now apply Hle.
    + now apply H12.
  - exact Hs1.
  - constructor; [exact Hs2|].
    eapply Forall_impl; [exact Hl2|]. intros x Hx. unfold by_time. simpl in Hx. lia.
Qed.

Lemma sortByTime_step_perm sorted m : sortByTime_step sorted m ≡ₚ m :: sorted.
Proof.
  destruct (sortByTime_step_split sorted m) as (l1 & l2 & -> & -> & _).
  symmetry. apply Permutation_middle.
Qed.

Lemma sortByTime_step_stamped t sorted m :
  stamped t (sortByTime_step sorted m) = stamped t sorted ++ stamped t [m].
Proof.
  destruct (sortByTime_step_split sorted m) as (l1 & l2 & -> & -> & Hl2 & _).
  unfold stamped. rewrite !List.filter_app. simpl.
  destruct (timestamp m =? t) eqn:E; [|now rewrite app_nil_r].
  apply Z.eqb_eq in E. subst t.
  assert (Hnone : List.filter (fun x => timestamp x =? timestamp m) l2 = []).
  { clear -Hl2. induction Hl2 as [|x l Hx _ IH]; [reflexivity|]. simpl.
    rewrite IH. now rewrite (proj2 (Z.eqb_neq _ _)) by lia. }
  rewrite Hnone. now rewrite !app_nil_r.
Qed.

Lemma sortByTime_step_in_order sorted m :
  Forall (fun x => timestamp x <= timestamp m) sorted ->
  sortByTime_step sorted m = sorted ++ [m].
Proof.
  intros Hall.
  destruct (sortByTime_step_split sorted m) as (l1 & l2 & -> & -> & Hl2 & _).
  apply Forall_app in Hall as [_ Hall].
  destruct l2 as [|x l2]; [now rewrite app_nil_r|].
  apply Forall_cons in Hall as [H1 _]. apply Forall_cons in Hl2 as [H2 _]. lia.
Qed.

Lemma sortByTime_fold messages sorted :
  let out := fold_left sortByTime_step messages sorted in
  (StronglySorted by_time sorted -> StronglySorted by_time out)
  /\ out ≡ₚ sorted ++ messages
  /\ forall t, stamped t out = stamped t sorted ++ stamped t messages.
Proof.
  revert sorted. induction messages as [|m ms IH]; intros sorted; simpl.
  - rewrite app_nil_r. split; [auto|]. split; [reflexivity|].
    intros t. unfold stamped. simpl. now rewrite app_nil_r.
  - destruct (IH (sortByTime_step sorted m)) as (Hs & Hp & Ht).
    split; [|split].
    + intros H. now apply Hs, sortByTime_step_sorted.
    + rewrite Hp, sortByTime_step_perm. simpl. apply Permutation_middle.
    + intros t. rewrite Ht, sortByTime_step_stamped, <- app_assoc.
      f_equal. unfold stamped. simpl.
      now destruct (timestamp m =? t).
Qed.

End SortByTime.

(** X7. [sortByTime] returns the messages it was given, each as often as it
    was given, with timestamps that never decrease along the list. *)
Theorem sortByTime_sorted (messages : list ChatMessage) :
  StronglySorted by_time (sortByTime messages)
  /\ sortByTime messages ≡ₚ messages.
Proof.
  destruct (sortByTime_fold messages []) as (Hs & Hp & _).
  split; [apply Hs; constructor | exact Hp].
Qed.

(** X8. [sortByTime] is stable: the messages that carry one and the same
    timestamp stay in the order they had in the input. *)
Theorem sortByTime_stable (messages : list ChatMessage) (t : Z) :
  stamped t (sortByTime messages) = stamped t messages.
Proof. now destruct (sortByTime_fold messages []) as (_ & _ & ->). Qed.

(** X9. A list that is already in time order is returned as it is. *)
Theorem sortByTime_in_order (messages : list ChatMessage) :
  StronglySorted by_time messages -> sortByTime messages = messages.
Proof.
  unfold sortByTime. change messages with ([] ++ messages) at 1 3.
  generalize (@nil ChatMessage) as sorted. 
  induction messages as [|m ms IH]; intros sorted Hs; simpl.
  - now rewrite app_nil_r.
  - rewrite sortByTime_step_in_order.
    + rewrite IH; rewrite <- app_assoc; [reflexivity | exact Hs].
    + apply StronglySorted_app in Hs as (H & _ & _).
      apply Forall_forall. intros x Hx.
      apply (H x m Hx). apply list_elem_of_here.
Qed.

Lemma normalizeSessionOptions_idempotent_witness :
  normalizeSessionOptions
    (normalizeSessionOptions ["main"; " notes "; "agent:ops:primary"; ""; "notes"]
       (Some (mkSessionDefaults "ops" "primary" "agent:ops:home" None)))
    (Some (mkSessionDefaults "ops" "primary" "agent:ops:home" None))
  = normalizeSessionOptions ["main"; " notes "; "agent:ops:primary"; ""; "notes"]
      (Some (mkSessionDefaults "ops" "primary" "agent:ops:home" None)).
Proof.
  apply (normalizeSessionOptions_idempotent
           ["main"; " notes "; "agent:ops:primary"; ""; "notes"]
           (Some (mkSessionDefaults "ops" "primary" "agent:ops:home" None))).
  reflexivity.
Defined.

Lemma dedupeChatMessages_keeps_user_message_witness :
  In (questionAt 1500)
     (dedupeChatMessages ([questionAt 1000] ++ questionAt 1500 :: [helloAt 2000])).
Proof.
  apply (dedupeChatMessages_keeps_user_message
           [questionAt 1000] [helloAt 2000] (questionAt 1500)).
  - reflexivity.
  - intros earlier [<- | []]. vm_compute. discriminate.
Defined.

Lemma sortByTime_in_order_witness :
  sortByTime [helloAt 1000; questionAt 1000; helloAt 2000]
  = [helloAt 1000; questionAt 1000; helloAt 2000].
Proof.
  apply (sortByTime_in_order [helloAt 1000; questionAt 1000; helloAt 2000]).
  repeat constructor; unfold by_time; simpl; lia.
Defined.

(** ** History records *)

(** X10. [resolveChatRole] reads a role whatever its letter case and the
    blanks around it, and gives the fallback for everything else: the result
    is [r] exactly when the raw role is a string that trims and lower-cases
    to the name of [r], or when it is no role name at all and [r] is the
    fallback. *)
Theorem resolveChatRole_spec (rawRole : JsValue) (fallback r : ChatRole) :
  resolveChatRole rawRole fallback = r
  <-> (exists s, rawRole = JStr s /\ toLowerCase (trim s) = role_str r)
      \/ (r = fallback
          /\ forall s r', rawRole = JStr s -> toLowerCase (trim s) <> role_str r').
Proof.
  unfold resolveChatRole.
  destruct rawRole as [| | | |s| |];
    try (simpl; split;
         [intros <-; right; split; [reflexivity | discriminate]
         | intros [(s & [=] & _) | [-> _]]; reflexivity]).
  set (n := toLowerCase (trim s)).
  destruct (String.eqb_spec n "user") as [Eu|Nu];
    [|destruct (String.eqb_spec n "assistant") as [Ea|Na];
      [|destruct (String.eqb_spec n "system") as [Es|Ns]]].
  - split.
    + intros <-. left. now exists s.
    + intros [(s' & [= <-] & H) | (_ & H)].
      * fold n in H. rewrite Eu in H. now destruct r.
      * now destruct (H s RoleUser eq_refl).
  - split.
    + intros <-. left. now exists s.
    + intros [(s' & [= <-] & H) | (_ & H)].
      * fold n in H. rewrite Ea in H. now destruct r.
      * now destruct (H s RoleAssistant eq_refl).
  - split.
    + intros <-. left. now exists s.
    + intros [(s' & [= <-] & H) | (_ & H)].
      * fold n in H. rewrite Es in H. now destruct r.
      * now destruct (H s RoleSystem eq_refl).
  - split.
    + intros <-. right. split; [reflexivity|].
      intros s' r' [= <-]. fold n. now destruct r'.
    + intros [(s' & [= <-] & H) | (-> & _)]; [|reflexivity].
      fold n in H. now destruct r.
Qed.

(** X11. A record that has only an [errorMessage] shows it as an error
    exactly once: the extracted text lower-cases to something that starts
    with ["error:"], it is the trimmed message itself when that already
    starts so, and the trimmed message after ["Error: "] otherwise. *)
Theorem extractText_error_message (item : JsValue) (e : string) :
  getProp item "content" = JUndefined ->
  getProp item "text" = JUndefined ->
  getProp item "errorMessage" = JStr e ->
  trim e <> "" ->
  startsWith (toLowerCase (extractTextFromMessageObject item)) "error:" = true
  /\ (startsWith (toLowerCase (trim e)) "error:" = true ->
      extractTextFromMessageObject item = trim e)
  /\ (startsWith (toLowerCase (trim e)) "error:" = false ->
      extractTextFromMessageObject item = "Error: " +:+ trim e).
Proof.
  intros Hc Ht He Hne. unfold extractTextFromMessageObject.
  rewrite Hc, Ht, He. apply str_falsy_false in Hne. rewrite Hne.
  destruct (startsWith (toLowerCase (trim e)) "error:") eqn:P.
  - split; [exact P|]. split; [reflexivity | discriminate].
  - split; [reflexivity|]. split; [discriminate | reflexivity].
Qed.

Lemma extractText_error_message_witness :
  extractTextFromMessageObject (JObj [("errorMessage", JStr " ERROR: quota ")])
  = "ERROR: quota"
  /\ extractTextFromMessageObject (JObj [("errorMessage", JStr " quota ")])
     = "Error: quota".
Proof.
  split.
  - apply (extractText_error_message
             (JObj [("errorMessage", JStr " ERROR: quota ")]) " ERROR: quota ");
      try reflexivity. discriminate.
  - apply (extractText_error_message
             (JObj [("errorMessage", JStr " quota ")]) " quota ");
      try reflexivity. discriminate.
Defined.

Section HistoryRecords.

Lemma mapHistoryMessage_some now stamp raw index m :
  mapHistoryMessage now stamp raw index = Some m ->
  trim (text m) <> ""
  /\ text m = extractTextFromMessageObject raw
  /\ role m = resolveChatRole (getProp raw "role") RoleAssistant.
Proof.
  unfold mapHistoryMessage.
  destruct (negb (isObjectLike raw)); [discriminate|].
  destruct (str_falsy (trim (extractTextFromMessageObject raw))) eqn:E;
    [discriminate|].
  intros [= <-]. simpl. split; [now apply str_falsy_false | now split].
Qed.

Lemma mapHistory_from_in clock index messages m :
  In m (mapHistory_from clock index messages) ->
  exists raw i, In raw messages
                /\ mapHistoryMessage (clock i).1 (clock i).2 raw i = Some m.
Proof.
  revert index. induction messages as [|entry rest IH]; intros index; simpl;
    [intros []|].
  destruct (mapHistoryMessage _ _ entry index) as [m'|] eqn:E.
  - intros [<- | H].
    + exists entry, index. split; [now left | exact E].
    + destruct (IH _ H) as (raw & i & Hin & Hm). exists raw, i.
      split; [now right | exact Hm].
  - intros H. destruct (IH _ H) as (raw & i & Hin & Hm). exists raw, i.
    split; [now right | exact Hm].
Qed.

End HistoryRecords.

(** X12. Every message that reconciling a history response yields comes from
    a record of the response: its text is the text extracted from that
    record and is not blank, and its role is the record's role, [assistant]
    when the record names none. *)
Theorem reconciled_history_messages
    (clock : nat -> Z * Stamp) (messages : list JsValue) (m : ChatMessage) :
  In m (dedupeChatMessages (mapHistory clock messages)) ->
  trim (text m) <> ""
  /\ exists raw, In raw messages
                 /\ text m = extractTextFromMessageObject raw
                 /\ role m = resolveChatRole (getProp raw "role") RoleAssistant.
Proof.
  intros Hin.
  pose proof (dedupe_kept_sublist (mapHistory clock messages)) as Hsub.
  apply list_elem_of_In in Hin.
  apply (elem_of_sublist _ _ _ Hin) in Hsub. apply list_elem_of_In in Hsub.
  apply mapHistory_from_in in Hsub as (raw & i & Hraw & Hm).
  apply mapHistoryMessage_some in Hm as (H1 & H2 & H3).
  split; [exact H1|]. now exists raw.
Qed.

Lemma reconciled_history_messages_witness :
  dedupeChatMessages (mapHistory clockSample historySample)
  = [ mkChatMessage "history-0-5000-0" RoleUser "Hi" 1000;
      mkChatMessage "history-1-5000-1" RoleAssistant "Hello" 2000 ]
  /\ trim (text (mkChatMessage "history-1-5000-1" RoleAssistant "Hello" 2000)) <> "".
Proof.
  split; [reflexivity|].
  apply (reconciled_history_messages clockSample historySample
           (mkChatMessage "history-1-5000-1" RoleAssistant "Hello" 2000)).
  right. left. reflexivity.
Defined.

(** ** The chat run, from send to end *)

Section ChatRun.

Implicit Types (s : AppState) (p : GatewayChatEventPayload).

Lemma isForeignRun_own s p : ev_runId p = chatRunId s -> isForeignRun s p = false.
Proof.
  intros E. unfold isForeignRun. rewrite bool_decide_eq_true_2 by exact E.
  simpl. apply andb_false_r.
Qed.

Lemma applyChatEvent_own_delta s p :
  sessionKeysMatch (ev_sessionKey p) (sessionKey s) (sessionDefaults s) = true ->
  isForeignRun s p = false -> ev_state p = "delta" ->
  applyChatEvent s p
  = with_chatError None
      (with_chatStream
         (if isObjectLike (ev_message p)
          then str_or (extractTextFromMessageObject (ev_message p)) (chatStream s)
          else chatStream s) s).
Proof. intros Hm Hf Hs. unfold applyChatEvent. now rewrite Hm, Hf, Hs. Qed.

Lemma applyChatEvent_own_terminal s p :
  sessionKeysMatch (ev_sessionKey p) (sessionKey s) (sessionDefaults s) = true ->
  isForeignRun s p = false ->
  (ev_state p = "final" \/ ev_state p = "aborted" -> applyChatEvent s p = clearRun s)
  /\ (ev_state p = "error" ->
      applyChatEvent s p
      = with_chatError (Some (default "Chat error" (ev_errorMessage p)))
          (with_statusText (default "Chat error" (ev_errorMessage p))
             (with_chatSending false
                (with_chatRunId None (with_chatStream "" s))))).
Proof.
  intros Hm Hf. unfold applyChatEvent. rewrite Hm, Hf. simpl. split.
  - intros [-> | ->]; reflexivity.
  - intros ->. reflexivity.
Qed.

End ChatRun.

(** X13. An event of the current session that is not foreign ends the run
    when it is [final], [aborted] or [error]: no run identifier, an empty
    stream buffer, not sending; [error] moreover shows the event's message,
    ["Chat error"] when it has none, as status and as chat error.  A [delta]
    keeps the run and the sending flag, clears the chat error, and keeps the
    buffer when its message gives no text. *)
Theorem applyChatEvent_own_run (s : AppState) (p : GatewayChatEventPayload) :
  sessionKeysMatch (ev_sessionKey p) (sessionKey s) (sessionDefaults s) = true ->
  isForeignRun s p = false ->
  (ev_state p = "final" \/ ev_state p = "aborted" \/ ev_state p = "error" ->
   chatRunId (applyChatEvent s p) = None
   /\ chatStream (applyChatEvent s p) = ""
   /\ chatSending (applyChatEvent s p) = false)
  /\ (ev_state p = "error" ->
      chatError (applyChatEvent s p) = Some (default "Chat error" (ev_errorMessage p))
      /\ statusText (applyChatEvent s p) = default "Chat error" (ev_errorMessage p))
  /\ (ev_state p = "delta" ->
      chatRunId (applyChatEvent s p) = chatRunId s
      /\ chatSending (applyChatEvent s p) = chatSending s
      /\ chatError (applyChatEvent s p) = None
      /\ (extractTextFromMessageObject (ev_message p) = "" ->
          chatStream (applyChatEvent s p) = chatStream s)).
Proof.
  intros Hm Hf.
  destruct (applyChatEvent_own_terminal s p Hm Hf) as [Hfa He].
  split; [|split].
  - intros [H | [H | H]];
      [rewrite Hfa by auto | rewrite Hfa by auto | rewrite He by exact H];
      repeat split.
  - intros H. rewrite He by exact H. split; reflexivity.
  - intros H. rewrite (applyChatEvent_own_delta s p Hm Hf H). simpl.
    repeat split. intros ->. now destruct (isObjectLike _).
Qed.

Lemma applyChatEvent_own_run_witness :
  chatRunId (applyChatEvent streamingState
               (mkChatEvent " main " None "error" JUndefined None)) = None
  /\ statusText (applyChatEvent streamingState
                   (mkChatEvent " main " None "error" JUndefined None))
     = "Chat error".
Proof.
  destruct (applyChatEvent_own_run streamingState
              (mkChatEvent " main " None "error" JUndefined None)
              eq_refl eq_refl) as (Hend & Herr & _).
  split.
  - apply Hend. right. right. reflexivity.
  - apply Herr. reflexivity.
Defined.

Section SendAndEvents.

Implicit Types (s : AppState) (p : GatewayChatEventPayload).




End SendAndEvents.



(** X15. Once an acknowledgement has rebound the run to the identifier the
    gateway assigned, events that still carry the provisional identifier
    are foreign, and events that carry the assigned one are not. *)
Theorem acknowledgeSend_supersedes
    (runId : string) (response : JsValue) (s : AppState) :
  chatRunId s = Some runId -> runId <> "" ->
  actualRunIdOf response <> "" -> actualRunIdOf response <> runId ->
  chatRunId (acknowledgeSend runId response s) = Some (actualRunIdOf response)
  /\ (forall p, ev_runId p = Some runId ->
                isForeignRun (acknowledgeSend runId response s) p = true)
  /\ (forall p, ev_runId p = Some (actualRunIdOf response) ->
                isForeignRun (acknowledgeSend runId response s) p = false).
Proof.
  intros Hs Hr Ha Hne. unfold acknowledgeSend, rebindRunId.
  apply str_falsy_false in Ha. apply String.eqb_neq in Hne as Hne'.
  rewrite Ha, Hne'. simpl. rewrite bool_decide_eq_true_2 by exact Hs.
  split; [reflexivity|]. split.
  - intros p Hp. apply isForeignRun_true_iff.
    exists runId, (actualRunIdOf response). simpl.
    repeat split; try assumption; [now apply str_falsy_false | congruence].
  - intros p Hp. now apply isForeignRun_own.
Qed.

Lemma acknowledgeSend_supersedes_witness :
  chatRunId (acknowledgeSend "run-1" (JObj [("runId", JStr " srv-42 ")]) streamingState)
  = Some "srv-42".
Proof.
  apply (acknowledgeSend_supersedes "run-1" (JObj [("runId", JStr " srv-42 ")])
           streamingState); try reflexivity; discriminate.
Defined.

(** ** The other capability toggles *)

(** X16. [setCameraEnabled], [setLocationEnabled] and [setVoiceWakeEnabled]
    write their flag and, with a manager, call [reconnectWithCapabilities]
    exactly once; the snapshot carries the requested value for the toggled
    flag and, for the three others, what [stateRef.current] holds, even
    when that mirror has not yet seen the update.  A rejected reconnect
    rejects the action itself and leaves [statusText] alone.  Without a
    manager nothing is called. *)
Theorem capability_toggle_reconnects
    (hasManager0 : bool) (rejected : option Thrown) (enabled : bool) (w : World) :
  let settled := match rejected with Some error => Rejected error | None => Resolved end in
  let snapshot := buildCapabilityConfig (w_stateRef w) in
  (let r := setCameraEnabled hasManager0 rejected enabled w in
   cameraEnabled (w_state r.1) = enabled
   /\ statusText (w_state r.1) = statusText (w_state w)
   /\ (hasManager0 = false -> w_calls r.1 = w_calls w /\ r.2 = Resolved)
   /\ (hasManager0 = true ->
       r.2 = settled
       /\ w_calls r.1
          = w_calls w
            ++ [manager_reconnectWithCapabilities
                  (mkCapabilityConfig enabled (cap_locationEnabled snapshot)
                     (cap_voiceWakeEnabled snapshot) (cap_talkEnabled snapshot))]))
  /\ (let r := setLocationEnabled hasManager0 rejected enabled w in
      locationEnabled (w_state r.1) = enabled
      /\ statusText (w_state r.1) = statusText (w_state w)
      /\ (hasManager0 = false -> w_calls r.1 = w_calls w /\ r.2 = Resolved)
      /\ (hasManager0 = true ->
          r.2 = settled
          /\ w_calls r.1
             = w_calls w
               ++ [manager_reconnectWithCapabilities
                     (mkCapabilityConfig (cap_cameraEnabled snapshot) enabled
                        (cap_voiceWakeEnabled snapshot) (cap_talkEnabled snapshot))]))
  /\ (let r := setVoiceWakeEnabled hasManager0 rejected enabled w in
      voiceWakeEnabled (w_state r.1) = enabled
      /\ statusText (w_state r.1) = statusText (w_state w)
      /\ (hasManager0 = false -> w_calls r.1 = w_calls w /\ r.2 = Resolved)
      /\ (hasManager0 = true ->
          r.2 = settled
          /\ w_calls r.1
             = w_calls w
               ++ [manager_reconnectWithCapabilities
                     (mkCapabilityConfig (cap_cameraEnabled snapshot)
                        (cap_locationEnabled snapshot) enabled
                        (cap_talkEnabled snapshot))])).
Proof.
  unfold setCameraEnabled, setLocationEnabled, setVoiceWakeEnabled,
    toggleAndReconnect.
  destruct hasManager0, rejected as [error|]; simpl;
    repeat split; try discriminate; reflexivity.
Qed.

Lemma capability_toggle_reconnects_witness :
  w_calls (setCameraEnabled true None true laggingWorld).1
  = [manager_reconnectWithCapabilities (mkCapabilityConfig true false false false)].
Proof.
  destruct (capability_toggle_reconnects true None true laggingWorld)
    as ((_ & _ & _ & Hcalls) & _).
  apply Hcalls. reflexivity.
Defined.

(** ** Hydration of the gateway configuration *)

Section HydrationProperties.

Variable Number : string -> JsNumber.

Lemma nonEmptyPartial_token next t :
  p_token next = Some t -> nonEmptyPartial next = Some next.
Proof.
  destruct next as [[?|] [?|] [?|] [?|] [?|] [?|]]; simpl; intros H;
    try reflexivity; discriminate H.
Qed.

(** What the record of the plain store parses to. *)
Lemma parse_plainPayload cfg :
  parseStoredGatewayConfig Number (Some (plainPayload cfg))
  = Some {| p_host := if (0 <? String.length (trim (host cfg)))%nat
                      then Some (trim (host cfg)) else None;
            p_port := match Number (port cfg) with
                      | NumInteger n =>
                          if (0 <? n) && (n <=? 65535) then Some (pretty n) else None
                      | NumOther => None
                      end;
            p_tls := Some (tls cfg);
            p_token := Some "";
            p_password := Some "";
            p_setupCode := None |}.
Proof.
  unfold parseStoredGatewayConfig, plainPayload.
  cbn [isObjectLike negb getProp assoc String.eqb Ascii.eqb Bool.eqb asString].
  now apply (nonEmptyPartial_token _ "").
Qed.

(** What the record of the secure store parses to. *)
Lemma parse_secretsPayload cfg :
  parseStoredGatewaySecrets (Some (secretsPayload cfg))
  = Some (mkPartialGatewayConfig None None None
            (Some (token cfg)) (Some (password cfg)) None).
Proof. reflexivity. Qed.

(** The stores after a persistence pass. *)
Lemma stores_after_persist state stores :
  let stores' := runStoreCalls (persistGatewayConfig true state) stores in
  plainRecord stores' = Some (plainPayload (gatewayConfig state))
  /\ secureRecord stores'
     = if str_falsy (token (gatewayConfig state))
          && str_falsy (password (gatewayConfig state))
       then None else Some (secretsPayload (gatewayConfig state)).
Proof.
  unfold persistGatewayConfig. simpl negb. cbv iota.
  now destruct (_ && _).
Qed.

End HydrationProperties.

(** X17. What a persistence pass wrote is what the next start restores: after
    the store calls of a pass, hydrating any state gives back the token, the
    password and the TLS flag of the persisted configuration; the host comes
    back trimmed, unless it is blank, and the port as the decimal form of
    [Number(port)], if that is an integer from 1 to 65535; a blank host, any
    other port, and the setup code, which is never stored, keep the value
    the hydrated state had. *)
Theorem persisted_config_is_restored
    (Number : string -> JsNumber) (state prev : AppState) (stores : Stores) :
  let cfg := gatewayConfig state in
  let stores' := runStoreCalls (persistGatewayConfig true state) stores in
  let restored :=
    gatewayConfig
      (hydrateGatewayConfig Number (plainRecord stores') (secureRecord stores') prev) in
  token restored = token cfg
  /\ password restored = password cfg
  /\ tls restored = tls cfg
  /\ setupCode restored = setupCode (gatewayConfig prev)
  /\ host restored
     = (if str_falsy (trim (host cfg)) then host (gatewayConfig prev)
        else trim (host cfg))
  /\ port restored
     = match Number (port cfg) with
       | NumInteger n =>
           if (0 <? n) && (n <=? 65535) then pretty n
           else port (gatewayConfig prev)
       | NumOther => port (gatewayConfig prev)
       end.
Proof.
  intros cfg stores'.
  destruct (stores_after_persist state stores) as [Hplain Hsecure].
  fold stores' in Hplain, Hsecure. fold cfg in Hplain, Hsecure.
  unfold hydrateGatewayConfig. rewrite Hplain, Hsecure, parse_plainPayload.
  assert (Hhost : (0 <? String.length (trim (host cfg)))%nat
                  = negb (str_falsy (trim (host cfg)))).
  { now destruct (trim (host cfg)). }
  rewrite Hhost.
  destruct (str_falsy (token cfg)) eqn:T, (str_falsy (password cfg)) eqn:P;
    simpl andb; cbv iota; rewrite ?parse_secretsPayload;
    try (apply str_falsy_true in T); try (apply str_falsy_true in P);
    destruct (str_falsy (trim (host cfg))), (Number (port cfg)) as [n|];
    try destruct ((0 <? n) && (n <=? 65535));
    simpl; repeat split; congruence.
Qed.

(** X18. [parseStoredGatewayConfig] never yields an unusable host or port: a
    restored host is non-empty and trimmed, a restored port is the decimal
    form of an integer from 1 to 65535, and no setup code is ever restored. *)
Theorem parseStoredGatewayConfig_valid
    (Number : string -> JsNumber) (stored : option JsValue)
    (next : PartialGatewayConfig) :
  parseStoredGatewayConfig Number stored = Some next ->
  (forall h, p_host next = Some h -> h <> "" /\ trim h = h)
  /\ (forall p, p_port next = Some p ->
                exists n, 0 < n <= 65535 /\ p = pretty n)
  /\ p_setupCode next = None.
Proof.
  unfold parseStoredGatewayConfig. destruct stored as [parsed|]; [|discriminate].
  destruct (negb (isObjectLike parsed)); [discriminate|].
  match goal with |- nonEmptyPartial ?r = _ -> _ => set (raw := r) end.
  intros H.
  assert (E : next = raw).
  { unfold nonEmptyPartial in H. destruct raw as [[?|] [?|] [?|] [?|] [?|] [?|]];
      congruence. }
  subst next. unfold raw. simpl. clear H raw. split; [|split; [|reflexivity]].
  - intros h. destruct (getProp parsed "host") as [| | | |h0| |]; try discriminate.
    destruct (0 <? String.length (trim h0))%nat eqn:L; [|discriminate].
    intros [= <-]. split; [|apply trim_idem].
    intros E. rewrite E in L. discriminate L.
  - intros p. destruct (getProp parsed "port") as [| | | |p0| |]; try discriminate.
    destruct (Number p0) as [n|]; [|discriminate].
    destruct ((0 <? n) && (n <=? 65535)) eqn:R; [|discriminate].
    intros [= <-]. exists n. split; [lia | reflexivity].
Qed.

(** ** Raw events *)

(** X19. [rawEvents] is a ring of the 20 latest labels, newest first: a raw
    event puts its label [role:event] in front, keeps the 19 labels that
    were newest before, and the list never holds more than 20. *)
Theorem onRawEvent_ring (eventName role0 : string) (s : AppState) :
  rawEvents (onRawEvent eventName role0 s)
  = (role0 +:+ ":" +:+ eventName) :: take 19 (rawEvents s)
  /\ (List.length (rawEvents (onRawEvent eventName role0 s)) <= 20)%nat
  /\ (List.length (rawEvents s) < 20 ->
      List.length (rawEvents (onRawEvent eventName role0 s))
      = S (List.length (rawEvents s)))%nat.
Proof.
  unfold onRawEvent. simpl. split; [reflexivity|].
  rewrite length_take. split; [lia|]. intros H. lia.
Qed.

Lemma parseStoredGatewayConfig_valid_witness :
  parseStoredGatewayConfig numberSample
    (Some (JObj [("host", JStr " gw.example "); ("port", JStr "8443")]))
  = Some (mkPartialGatewayConfig (Some "gw.example") (Some "8443") None None None None)
  /\ exists n, 0 < n <= 65535 /\ "8443" = pretty n.
Proof.
  split; [reflexivity|].
  destruct (parseStoredGatewayConfig_valid numberSample
              (Some (JObj [("host", JStr " gw.example "); ("port", JStr "8443")]))
              (mkPartialGatewayConfig (Some "gw.example") (Some "8443")
                 None None None None)
              eq_refl) as (_ & Hport & _).
  apply Hport. reflexivity.
Defined.

Lemma onRawEvent_ring_witness :
  List.length (rawEvents (onRawEvent "tick" "operator" (initialState 0))) = 1%nat.
Proof.
  destruct (onRawEvent_ring "tick" "operator" (initialState 0)) as (_ & _ & H).
  apply H. simpl. lia.
Defined.

(** ** Matching session keys *)

Section MatchRelation.

Implicit Types (a b c : string) (d : option SessionDefaults).

Lemma sessionKeysMatch_true_iff a b d :
  sessionKeysMatch a b d = true
  <-> normalizeSessionKeyForDefaults a d = normalizeSessionKeyForDefaults b d
      \/ (d = None
          /\ ((normalizeSessionKeyForDefaults a d = "main"
               /\ normalizeSessionKeyForDefaults b d = "agent:main:main")
              \/ (normalizeSessionKeyForDefaults a d = "agent:main:main"
                  /\ normalizeSessionKeyForDefaults b d = "main"))).
Proof.
  unfold sessionKeysMatch.
  destruct (String.eqb_spec (normalizeSessionKeyForDefaults a d)
              (normalizeSessionKeyForDefaults b d)) as [E|N].
  - split; [now left | reflexivity].
  - destruct d as [sd|].
    + split; [discriminate | intros [E | [[=] _]]; now destruct N].
    + rewrite orb_true_iff, !andb_true_iff, !String.eqb_eq. split.
      * intros H. right. split; [reflexivity | exact H].
      * intros [E | [_ H]]; [now destruct N | exact H].
Qed.

End MatchRelation.

(** X20. Next to being symmetric, the match relation is an equivalence: every key
    matches itself, and two keys that match a third match each other, with
    or without defaults. *)
Theorem sessionKeysMatch_equivalence (d : option SessionDefaults) :
  (forall a, sessionKeysMatch a a d = true)
  /\ (forall a b c, sessionKeysMatch a b d = true -> sessionKeysMatch b c d = true ->
                    sessionKeysMatch a c d = true).
Proof.
  split.
  - intros a. apply sessionKeysMatch_true_iff. now left.
  - intros a b c. rewrite !sessionKeysMatch_true_iff.
    intros [E1 | (Hd & H1)] [E2 | (Hd' & H2)].
    + left. congruence.
    + right. split; [exact Hd'|]. rewrite E1. exact H2.
    + right. split; [exact Hd|]. rewrite <- E2. exact H1.
    + destruct H1 as [[A1 B1] | [A1 B1]], H2 as [[B2 C2] | [B2 C2]].
      * rewrite B1 in B2. discriminate B2.
      * left. congruence.
      * left. congruence.
      * rewrite B1 in B2. discriminate B2.
Qed.

Lemma sessionKeysMatch_equivalence_witness :
  sessionKeysMatch " main " "main" None = true.
Proof.
  apply (sessionKeysMatch_equivalence None) with (b := "agent:main:main");
    reflexivity.
Defined.

(** X21. Storing a key in canonical form does not change which keys it
    matches: for defaults that are absent or trimmed, a key and its
    normalised form match exactly the same keys. *)
Theorem sessionKeysMatch_normalized (a b : string) (d : option SessionDefaults) :
  trimmed_defaults d ->
  sessionKeysMatch (normalizeSessionKeyForDefaults a d) b d = sessionKeysMatch a b d.
Proof. intros Hd. unfold sessionKeysMatch. now rewrite normalize_idem. Qed.

Lemma sessionKeysMatch_normalized_witness :
  sessionKeysMatch
    (normalizeSessionKeyForDefaults "agent:ops:main" (sessionDefaults helloState))
    " primary " (sessionDefaults helloState)
  = sessionKeysMatch "agent:ops:main" " primary " (sessionDefaults helloState).
Proof.
  apply (sessionKeysMatch_normalized "agent:ops:main" " primary "
           (sessionDefaults helloState)).
  reflexivity.
Defined.

(** ** Invariants of the session state *)

Section SessionInvariants.

Implicit Types (s : AppState) (w : Runtime).

Lemma prepend_current_key key options :
  key <> "" -> NoDup options -> ~ In "" options ->
  let listed := if includes options key then options else key :: options in
  NoDup listed /\ ~ In "" listed.
Proof.
  intros Hk Hn He. simpl. destruct (includes options key) eqn:I; [now split|].
  split.
  - constructor; [|exact Hn]. intros H. apply list_elem_of_In, includes_In in H.
    congruence.
  - intros [H | H]; [now apply Hk | now apply He].
Qed.

Lemma normalizeSessionOptions_tidy options d :
  NoDup (normalizeSessionOptions options d)
  /\ ~ In "" (normalizeSessionOptions options d).
Proof.
  destruct (normalizeSessionOptions_members options d) as [Hn Hin].
  split; [exact Hn|]. intros H. apply Hin in H as [H _]. now apply H.
Qed.

Lemma runUpdate_tidy u s :
  steady s -> steady_update u -> tidy_options s -> tidy_update u ->
  tidy_options (runUpdate u s).
Proof.
  intros Hs Hu Ht Htu. pose proof (steady_current_key s Hs) as Hcur.
  destruct Hs as [Hd Hk].
  destruct u as [nextKey|d|refDefaults sessions|sl q deduped|next|f m];
    simpl in *.
  - exact Ht.
  - pose proof (normalize_nonempty (sessionKey s) (Some d) Hk) as Hne.
    unfold tidy_options, installSessionDefaults. simpl.
    rewrite (str_or_nonempty _ (sessionKey s) Hne).
    destruct (normalizeSessionOptions_tidy (sessionOptions s) (Some d)) as [Hn He].
    destruct (prepend_current_key _ _ Hne Hn He) as [Hn' He'].
    destruct (0 <? List.length _)%nat; [now split|].
    split; [apply NoDup_singleton | intros [H | []]; now apply Hne].
  - unfold tidy_options, applySessionsList. simpl. rewrite Hcur.
    apply prepend_current_key.
    + now apply normalize_nonempty.
    + destruct (0 <? List.length _)%nat;
        [apply normalizeSessionOptions_tidy | apply Ht].
    + destruct (0 <? List.length _)%nat;
        [apply normalizeSessionOptions_tidy | apply Ht].
  - exact Ht.
  - exact Htu.
  - destruct (Hu s) as (_ & _ & E). unfold tidy_options. now rewrite E.
Qed.

Lemma enqueue_tidy u w :
  tidy_runtime w -> tidy_update u -> tidy_runtime (enqueue u w).
Proof.
  intros (Hs & Hm & Hq) Hu.
  split; [exact Hs|]. split; [exact Hm|].
  apply Forall_app. split; [exact Hq | now constructor].
Qed.

Lemma perform_tidy a w :
  steady_runtime w -> tidy_runtime w -> allowed a -> tidy_runtime (perform a w).
Proof.
  intros (Ss & Sm & Sq) Hw Ha. pose proof Hw as (Hs & Hm & Hq).
  destruct a as [requested|helloDefaults role0|sessions|sl q clock messages
                 |patch|f m| |]; simpl.
  - now apply enqueue_tidy.
  - destruct (negb _); [exact Hw|].
    destruct (parseSessionDefaults helloDefaults); [|exact Hw].
    now apply enqueue_tidy.
  - now apply enqueue_tidy.
  - now apply enqueue_tidy.
  - assert (Hn : tidy_options (patch (rt_mirror w))).
    { destruct (Ha (rt_mirror w)) as (_ & _ & E). unfold tidy_options.
      now rewrite E. }
    split; [exact Hs|]. split; [exact Hn|].
    apply Forall_app. split; [exact Hq | now constructor].
  - now apply enqueue_tidy.
  - destruct (rt_queue w) as [|u rest] eqn:Q; [exact Hw|].
    apply Forall_cons in Hq as [Hu Hrest]. apply Forall_cons in Sq as [Su _].
    pose proof (runUpdate_tidy u _ Ss Su Hs Hu) as Hn.
    split; [exact Hn|]. split; [|exact Hrest].
    simpl. now destruct (writesMirror u).
  - split; [exact Hs|]. split; [exact Hs | exact Hq].
Qed.

Lemma reachable_tidy now listed w :
  runtime_reachable now listed w -> tidy_runtime w.
Proof.
  induction 1 as [|listed w a Hr IH Ha].
  - assert (Hi : tidy_options (initialState now)).
    { split; [apply NoDup_singleton | intros [H | []]; discriminate H]. }
    split; [exact Hi|]. split; [exact Hi | constructor].
  - apply perform_tidy; [exact (reachable_steady now listed w Hr) | exact IH | exact Ha].
Qed.

End SessionInvariants.

(** X22. In every run-time state the store reaches, with calls reading a
    mirror that may lag behind the queued updates, the stored [sessionKey] is
    never blank, in the state and in [stateRef.current] alike; so the key a
    request carries, [resolveSessionKeyForRequest], is the canonical form of
    the stored key: it is not empty, and normalising it again changes
    nothing. *)
Theorem request_session_key_canonical
    (now : Z) (listed : bool) (w : Runtime) (s : AppState) :
  runtime_reachable now listed w ->
  s = rt_state w \/ s = rt_mirror w ->
  trim (sessionKey s) <> ""
  /\ resolveSessionKeyForRequest s
     = normalizeSessionKeyForDefaults (sessionKey s) (sessionDefaults s)
  /\ resolveSessionKeyForRequest s <> ""
  /\ normalizeSessionKeyForDefaults (resolveSessionKeyForRequest s) (sessionDefaults s)
     = resolveSessionKeyForRequest s.
Proof.
  intros Hr Hs.
  assert (Hst : steady s).
  { destruct (reachable_steady now listed w Hr) as (H1 & H2 & _).
    now destruct Hs as [-> | ->]. }
  pose proof (steady_current_key s Hst) as Hcur. destruct Hst as [Hd Hk].
  unfold resolveSessionKeyForRequest. rewrite Hcur.
  split; [exact Hk|]. split; [reflexivity|].
  split; [now apply normalize_nonempty | now apply normalize_idem].
Qed.

Lemma request_session_key_canonical_witness :
  runtime_reachable 0 false laggingRuntime
  /\ sessionKey (rt_state laggingRuntime) = "main"
  /\ resolveSessionKeyForRequest (rt_state laggingRuntime) = "agent:ops:primary"
  /\ resolveSessionKeyForRequest (rt_state laggingRuntime) <> "".
Proof.
  assert (Hr : runtime_reachable 0 false laggingRuntime).
  { unfold laggingRuntime. do 4 run_back. apply rt_initial. }
  split; [exact Hr|]. split; [reflexivity|]. split; [reflexivity|].
  apply (request_session_key_canonical 0 false laggingRuntime
           (rt_state laggingRuntime) Hr).
  left. reflexivity.
Defined.

(** X23. In every run-time state the store reaches, the session options are
    pairwise different and none of them is empty. *)
Theorem sessionOptions_distinct (now : Z) (listed : bool) (w : Runtime) :
  runtime_reachable now listed w ->
  NoDup (sessionOptions (rt_state w)) /\ ~ In "" (sessionOptions (rt_state w)).
Proof. intros Hr. now destruct (reachable_tidy now listed w Hr) as (H & _). Qed.

Lemma sessionOptions_distinct_witness :
  runtime_reachable 0 true listedRuntime
  /\ NoDup (sessionOptions (rt_state listedRuntime)).
Proof.
  assert (Hr : runtime_reachable 0 true listedRuntime).
  { unfold listedRuntime. do 4 run_back. apply rt_initial. }
  split; [exact Hr|].
  apply (sessionOptions_distinct 0 true listedRuntime Hr).
Defined.

(** ** The chat thread *)

Section Thread.

Lemma trim_clean_nonblank c r : is_ws c = false -> trim (String c r) <> "".
Proof.
  intros Hc. unfold trim. simpl. rewrite Hc. rewrite trimEnd_cons.
  destruct (trimEnd r); [rewrite Hc|]; discriminate.
Qed.

Lemma no_blank_message_snoc messages m :
  no_blank_message messages -> trim (text m) <> "" ->
  no_blank_message (messages ++ [m]).
Proof.
  intros H Hm. apply Forall_app. split; [exact H|]. now constructor.
Qed.

Lemma mapHistory_from_no_blank clock index messages :
  no_blank_message (mapHistory_from clock index messages).
Proof.
  apply Forall_forall. intros m Hm. apply list_elem_of_In in Hm.
  apply mapHistory_from_in in Hm as (raw & i & _ & Hm).
  now apply mapHistoryMessage_some in Hm.
Qed.

Lemma dedupe_no_blank messages :
  no_blank_message messages -> no_blank_message (dedupeChatMessages messages).
Proof.
  intros H. apply Forall_forall. intros m Hm.
  pose proof (dedupe_kept_sublist messages) as Hsub.
  apply (elem_of_sublist _ _ _ Hm) in Hsub.
  unfold no_blank_message in H. rewrite Forall_forall in H. now apply H.
Qed.

Lemma applyChatEvent_chatMessages s p :
  chatMessages (applyChatEvent s p) = chatMessages s.
Proof.
  unfold applyChatEvent. destruct (negb _); [reflexivity|].
  repeat (destruct (String.eqb (ev_state p) _);
          [destruct (isForeignRun s p); reflexivity|]).
  reflexivity.
Qed.

Lemma dedupe_nil_iff messages : dedupeChatMessages messages = [] <-> messages = [].
Proof.
  split; [|now intros ->].
  destruct messages as [|m ms]; [reflexivity|]. unfold dedupeChatMessages.
  change (dedupe_loop (m :: ms) (∅, []))
    with (dedupe_loop ms (dedupe_loop [m] (∅, []))).
  rewrite dedupe_single.
  destruct (dedupe_loop_appends ms ({[messageKey m]} ∪ ∅, [m])) as (kept & -> & _).
  discriminate.
Qed.

End Thread.

(** X24. Through every update of the store, the thread is never empty and
    never holds a message with a blank text: history records without text
    are left out, blank agent notes and blank drafts are ignored, and a
    failed send is shown as ["Error: ..."]. *)
Theorem thread_messages_not_blank (now : Z) (s : AppState) :
  thread_reachable now s ->
  chatMessages s <> [] /\ no_blank_message (chatMessages s).
Proof.
  induction 1 as [|s payload _ IH|s showLoading quiet clock messages _ IH
                  |s payloadText stamp time _ IH|s runId stamp time txt _ IH Ht
                  |s error stamp time _ IH|s update _ IH Hsame].
  - split; [discriminate|]. repeat constructor. vm_compute. discriminate.
  - now rewrite applyChatEvent_chatMessages.
  - unfold applyHistory. simpl.
    destruct (0 <? List.length _)%nat eqn:L; [|exact IH]. split.
    + intros E. rewrite E in L. discriminate L.
    + apply dedupe_no_blank, mapHistory_from_no_blank.
  - unfold onAgentEvent. destruct (str_falsy _) eqn:E; [exact IH|]. simpl.
    destruct IH as [_ IH]. split; [now destruct (chatMessages s)|].
    apply no_blank_message_snoc; [exact IH|]. simpl.
    apply str_falsy_false in E.
    destruct payloadText as [t|]; [now rewrite trim_idem | now destruct E].
  - simpl. destruct IH as [_ IH]. split; [now destruct (chatMessages s)|].
    apply no_blank_message_snoc; [exact IH|]. simpl. now rewrite trim_idem.
  - simpl. destruct IH as [_ IH]. split; [now destruct (chatMessages s)|].
    apply no_blank_message_snoc; [exact IH|]. simpl.
    now apply trim_clean_nonblank.
  - now rewrite Hsame.
Qed.

Lemma thread_messages_not_blank_witness :
  thread_reachable 0
    (applyHistory false true (dedupeChatMessages (mapHistory clockSample historySample))
       (onAgentEvent (Some "  ") (mkStamp 1 2) 3 (initialState 0)))
  /\ no_blank_message
       (chatMessages
          (applyHistory false true
             (dedupeChatMessages (mapHistory clockSample historySample))
             (onAgentEvent (Some "  ") (mkStamp 1 2) 3 (initialState 0)))).
Proof.
  assert (Hr : thread_reachable 0
            (applyHistory false true
               (dedupeChatMessages (mapHistory clockSample historySample))
               (onAgentEvent (Some "  ") (mkStamp 1 2) 3 (initialState 0)))).
  { apply thread_applyHistory, thread_onAgentEvent, thread_initial. }
  split; [exact Hr|].
  apply (thread_messages_not_blank 0 _ Hr).
Defined.

(** ** Loading the history *)

Section HistoryLoad.

Lemma mapHistoryMessage_none now stamp raw index :
  mapHistoryMessage now stamp raw index = None <-> usableRecord raw = false.
Proof.
  unfold mapHistoryMessage, usableRecord.
  destruct (isObjectLike raw); simpl; [|now split].
  destruct (str_falsy _); simpl; split; congruence.
Qed.

Lemma mapHistory_from_nil clock index messages :
  mapHistory_from clock index messages = [] <-> existsb usableRecord messages = false.
Proof.
  revert index. induction messages as [|raw rest IH]; intros index; simpl;
    [now split|].
  destruct (mapHistoryMessage _ _ raw index) as [m|] eqn:E.
  - assert (U : usableRecord raw = true).
    { destruct (usableRecord raw) eqn:U; [reflexivity|].
      apply (mapHistoryMessage_none (clock index).1 (clock index).2 raw index) in U.
      rewrite U in E. discriminate E. }
    rewrite U. simpl. split; discriminate.
  - apply mapHistoryMessage_none in E. rewrite E. simpl. apply IH.
Qed.

End HistoryLoad.

(** X25. A history response replaces the thread exactly when at least one of
    its records is an object with a non-blank text; the new thread is then
    the reconciled list, which is not empty.  A response with no such record
    (none at all, a missing list, only blank or malformed records) leaves
    the thread as it is. *)
Theorem loadChatHistory_thread
    (clock : nat -> Z * Stamp) (showLoading quiet : bool)
    (messages : option (list JsValue)) (s : AppState) :
  let loaded :=
    loadChatHistory clock true showLoading quiet (HistoryResolved messages) s in
  let reconciled := dedupeChatMessages (mapHistory clock (default [] messages)) in
  (existsb usableRecord (default [] messages) = false ->
   chatMessages loaded = chatMessages s)
  /\ (existsb usableRecord (default [] messages) = true ->
      chatMessages loaded = reconciled /\ reconciled <> []).
Proof.
  intros loaded reconciled.
  assert (Hnil : reconciled = [] <-> existsb usableRecord (default [] messages) = false).
  { unfold reconciled. rewrite dedupe_nil_iff. apply mapHistory_from_nil. }
  assert (Hload : chatMessages loaded
                  = if (0 <? List.length reconciled)%nat then reconciled
                    else chatMessages s).
  { unfold loaded, loadChatHistory, applyHistory. simpl.
    fold reconciled. now destruct showLoading. }
  rewrite Hload. split.
  - intros H. apply Hnil in H. now rewrite H.
  - intros H. assert (Hne : reconciled <> []).
    { intros E. apply Hnil in E. congruence. }
    split; [|exact Hne]. now destruct reconciled.
Qed.

Lemma loadChatHistory_thread_witness :
  chatMessages
    (loadChatHistory clockSample true true false
       (HistoryResolved (Some [JStr "noise"; JObj [("content", JStr "  ")]]))
       streamingState)
  = chatMessages streamingState.
Proof.
  apply (loadChatHistory_thread clockSample true false
           (Some [JStr "noise"; JObj [("content", JStr "  ")]]) streamingState).
  reflexivity.
Defined.

(** X26. The history reload that follows a chat event is quiet: compared
    with applying the event alone, it never changes [chatLoading],
    [chatError], [statusText], the run identifier, the stream buffer or the
    sending flag; and it changes nothing at all when the event is neither
    [final] nor [aborted], when there is no operator client, or when the
    request is rejected.  This holds whatever [stateRef.current] shows when
    the event arrives. *)
Theorem onChatEvent_reload_is_quiet
    (clock : nat -> Z * Stamp) (hasClient : bool) (reload : HistoryResult)
    (payload : GatewayChatEventPayload) (current prev : AppState) :
  let applied := applyChatEvent prev payload in
  let s' := onChatEvent clock hasClient reload payload current prev in
  (chatLoading s' = chatLoading applied
   /\ chatError s' = chatError applied
   /\ statusText s' = statusText applied
   /\ chatRunId s' = chatRunId applied
   /\ chatStream s' = chatStream applied
   /\ chatSending s' = chatSending applied)
  /\ (ev_state payload <> "final" -> ev_state payload <> "aborted" -> s' = applied)
  /\ (hasClient = false -> s' = applied)
  /\ (forall error, reload = HistoryRejected error -> s' = applied).
Proof.
  intros applied s'. unfold s', onChatEvent. fold applied.
  destruct (shouldReloadHistoryForChatTerminal payload current) eqn:R.
  - unfold loadChatHistory. split; [|split; [|split]].
    + destruct hasClient, reload; simpl; repeat split.
    + intros Hf Ha. unfold shouldReloadHistoryForChatTerminal in R.
      apply String.eqb_neq in Hf, Ha. rewrite Hf, Ha in R. discriminate R.
    + now intros ->.
    + intros error ->. now destruct hasClient.
  - repeat split.
Qed.

Lemma onChatEvent_reload_is_quiet_witness :
  onChatEvent clockSample true (HistoryResolved (Some historySample))
    foreignDelta (initialState 0) streamingState
  = applyChatEvent streamingState foreignDelta.
Proof.
  destruct (onChatEvent_reload_is_quiet clockSample true
              (HistoryResolved (Some historySample)) foreignDelta
              (initialState 0) streamingState)
    as (_ & H & _).
  apply H; discriminate.
Defined.

Lemma normalizeSessionOptions_spec_witness :
  normalizeSessionOptions ["b"; " notes "; "primary"; " b"; "main"]
    (Some (mkSessionDefaults "ops" "primary" "agent:ops:home" None))
  = ["b"; "notes"; "agent:ops:home"]
  /\ In "agent:ops:home"
       (normalizeSessionOptions ["b"; " notes "; "primary"; " b"; "main"]
          (Some (mkSessionDefaults "ops" "primary" "agent:ops:home" None))).
Proof.
  destruct (normalizeSessionOptions_spec
              ["b"; " notes "; "primary"; " b"; "main"]
              (Some (mkSessionDefaults "ops" "primary" "agent:ops:home" None)))
    as (Heq & _ & Hin & _).
  split; [rewrite Heq; reflexivity|].
  apply Hin. split; [discriminate|].
  exists "primary". split; [right; right; left|]; reflexivity.
Defined.

Lemma resolveChatRole_spec_witness :
  resolveChatRole (JStr " USER ") RoleAssistant = RoleUser.
Proof.
  apply (resolveChatRole_spec (JStr " USER ") RoleAssistant RoleUser).
  left. exists " USER ". split; reflexivity.
Defined.
